(** * brave_sync::storage::ObjectMap

    A shallow embedding of [ObjectMap] (components/brave_sync, the
    implementation half of [cansendbookmarks.h]): the composite key
    codec, the JSON record codec, the forward/reverse mapping
    operations over the LevelDB store and the not-synced record set. *)

From Stdlib Require Import Ascii String List Bool Arith NArith Lia.
From stdpp Require Import base option list gmap strings sorting.

(** ** Key codec *)

Module Key.

(** [ObjectMap::Type], the [enum Type] of the class declaration
    ([object_map.h], the second half of
    [components/brave_rewards/browser/rewards_notifications_service.h]):
    [Unset = 0], [Bookmark = 1], [History = 2]. *)
Inductive Type_ : Set := Unset | Bookmark | History.

#[global] Instance Type_eq_dec : EqDecision Type_.
Proof. solve_decision. Defined.

(** [ObjectMap::ComposeRawLocalId]: ['b' + local_id], ['h' + local_id]
    or the bare local id.  The [default: NOTREACHED()] arm is excluded
    by the enumeration. *)
Definition ComposeRawLocalId (type : Type_) (local_id : string) : string :=
  match type with
  | Unset => local_id
  | Bookmark => String "b" local_id
  | History => String "h" local_id
  end.

(** [ObjectMap::SplitRawLocalId]; the two out-parameters are returned
    as the pair [(local_id, read_type)]. *)
Definition SplitRawLocalId (raw_local_id : string) : string * Type_ :=
  match raw_local_id with
  | EmptyString => ("", Unset)
  | String object_type_char rest =>
      if Ascii.eqb object_type_char "b" then (rest, Bookmark)
      else if Ascii.eqb object_type_char "h" then (rest, History)
      else (raw_local_id, Unset)
  end.

(** The first byte of a local id is one of the two category prefixes. *)
Definition prefixed (local_id : string) : bool :=
  match local_id with
  | EmptyString => false
  | String c _ => Ascii.eqb c "b" || Ascii.eqb c "h"
  end.

End Key.
Export Key.

(** ** The JSON value library (base::Value, base::JSONReader, base::JSONWriter)

    Modelled from the spec: the JSON value library, an external
    collaborator that parses and serializes a JSON value into a list
    and object tree; for the source it is Chromium's [base/json] and
    [base/values.h].  The reader is the RFC 8259 grammar
    ([JSON_PARSE_RFC]).  Strings are byte strings: bytes above 0x7f
    are copied through unchanged by the reader and by the writer (the
    library's UTF-8 validation is not modelled), and a number keeps
    its lexeme instead of being converted to [int] or [double]. *)

Module Json.

Definition dquote : ascii := "034"%char.
Definition backslash : ascii := "092"%char.

#[local] Set Warnings "-register-all".

(** [base::Value].  A dictionary is kept sorted by key with unique
    keys, as [base::flat_map] keeps it. *)
Inductive Value : Type :=
| NONE
| BOOLEAN (b : bool)
| NUMBER (lexeme : string)
| STRING (s : string)
| LIST (l : list Value)
| DICTIONARY (d : list (string * Value)).

Definition is_list (v : Value) : bool :=
  match v with LIST _ => true | _ => false end.

(** [DictionaryValue::SetKey]: insert at the sorted position, replacing
    the value of an equal key. *)
Fixpoint SetKey (k : string) (v : Value) (d : list (string * Value))
  : list (string * Value) :=
  match d with
  | [] => [(k, v)]
  | (k', v') :: d' =>
      match String.compare k k' with
      | Lt => (k, v) :: d
      | Eq => (k, v) :: d'
      | Gt => (k', v') :: SetKey k v d'
      end
  end.

Fixpoint dict_find (k : string) (d : list (string * Value)) : option Value :=
  match d with
  | [] => None
  | (k', v) :: d' => if String.eqb k k' then Some v else dict_find k d'
  end.

(** *** Reader *)

Definition is_ws (c : ascii) : bool :=
  Ascii.eqb c " " || Ascii.eqb c "009" || Ascii.eqb c "010" || Ascii.eqb c "013".

Fixpoint skip_ws (s : string) : string :=
  match s with
  | String c r => if is_ws c then skip_ws r else s
  | EmptyString => s
  end.

Definition is_digit (c : ascii) : bool :=
  let n := N_of_ascii c in (48 <=? n)%N && (n <=? 57)%N.

Definition hex_digit (c : ascii) : option N :=
  let n := N_of_ascii c in
  if (48 <=? n)%N && (n <=? 57)%N then Some (n - 48)%N
  else if (65 <=? n)%N && (n <=? 70)%N then Some (n - 55)%N
  else if (97 <=? n)%N && (n <=? 102)%N then Some (n - 87)%N
  else None.

Definition hex4 (a b c d : ascii) : option N :=
  match hex_digit a, hex_digit b, hex_digit c, hex_digit d with
  | Some x, Some y, Some z, Some w => Some (((x * 16 + y) * 16 + z) * 16 + w)%N
  | _, _, _, _ => None
  end.

Definition byte (n : N) : ascii := ascii_of_N n.

(** UTF-8 encoding of a code point below 0x110000. *)
Definition utf8 (cp : N) : string :=
  if (cp <? 128)%N then String (byte cp) ""
  else if (cp <? 2048)%N then
    String (byte (192 + cp / 64)) (String (byte (128 + cp mod 64)) "")
  else if (cp <? 65536)%N then
    String (byte (224 + cp / 4096))
      (String (byte (128 + (cp / 64) mod 64)) (String (byte (128 + cp mod 64)) ""))
  else
    String (byte (240 + cp / 262144))
      (String (byte (128 + (cp / 4096) mod 64))
         (String (byte (128 + (cp / 64) mod 64)) (String (byte (128 + cp mod 64)) ""))).

Definition is_high_surrogate (cp : N) : bool := (55296 <=? cp)%N && (cp <=? 56319)%N.
Definition is_low_surrogate (cp : N) : bool := (56320 <=? cp)%N && (cp <=? 57343)%N.

(** The character denoted by a one-letter escape. *)
Definition simple_escape (e : ascii) : option ascii :=
  if Ascii.eqb e dquote then Some dquote
  else if Ascii.eqb e backslash then Some backslash
  else if Ascii.eqb e "/" then Some "/"%char
  else if Ascii.eqb e "b" then Some "008"%char
  else if Ascii.eqb e "f" then Some "012"%char
  else if Ascii.eqb e "n" then Some "010"%char
  else if Ascii.eqb e "r" then Some "013"%char
  else if Ascii.eqb e "t" then Some "009"%char
  else None.

(** A byte that may stand unescaped inside a string. *)
Definition plain_char (c : ascii) : bool :=
  negb (Ascii.eqb c dquote) && negb (Ascii.eqb c backslash)
  && (32 <=? N_of_ascii c)%N.

(** A string that is its own JSON string body: no quote, no backslash,
    no control byte. *)
Fixpoint plain_string (s : string) : bool :=
  match s with
  | EmptyString => true
  | String c r => plain_char c && plain_string r
  end.

Definition prepend (p : string) (r : option (string * string))
  : option (string * string) :=
  match r with
  | Some (s, rest) => Some (p +:+ s, rest)
  | None => None
  end.

(** The contents of a string after its opening quote, up to and
    including the closing quote; returns the decoded string and the
    remaining input. *)
Fixpoint parse_string_body (s : string) : option (string * string) :=
  match s with
  | EmptyString => None
  | String c r =>
      if Ascii.eqb c dquote then Some ("", r)
      else if Ascii.eqb c backslash then
        match r with
        | EmptyString => None
        | String e r1 =>
            match simple_escape e with
            | Some ch => prepend (String ch "") (parse_string_body r1)
            | None =>
                if Ascii.eqb e "u" then
                  match r1 with
                  | String h1 (String h2 (String h3 (String h4 r2))) =>
                      match hex4 h1 h2 h3 h4 with
                      | None => None
                      | Some cp =>
                          if is_high_surrogate cp then
                            match r2 with
                            | String b (String u (String l1 (String l2
                                (String l3 (String l4 r3))))) =>
                                if Ascii.eqb b backslash && Ascii.eqb u "u" then
                                  match hex4 l1 l2 l3 l4 with
                                  | Some lo =>
                                      if is_low_surrogate lo then
                                        prepend
                                          (utf8 (65536 + (cp - 55296) * 1024
                                                 + (lo - 56320))%N)
                                          (parse_string_body r3)
                                      else None
                                  | None => None
                                  end
                                else None
                            | _ => None
                            end
                          else if is_low_surrogate cp then None
                          else prepend (utf8 cp) (parse_string_body r2)
                      end
                  | _ => None
                  end
                else None
            end
        end
      else if (32 <=? N_of_ascii c)%N then
        prepend (String c "") (parse_string_body r)
      else None
  end.

(** [span p s] splits off the longest prefix of [s] whose bytes satisfy [p]. *)
Fixpoint span (p : ascii -> bool) (s : string) : string * string :=
  match s with
  | String c r =>
      if p c then let '(a, b) := span p r in (String c a, b) else ("", s)
  | EmptyString => ("", "")
  end.

Definition strip_prefix (p s : string) : option string :=
  if String.prefix p s
  then Some (String.substring (String.length p) (String.length s - String.length p) s)
  else None.

(** number = [ minus ] int [ frac ] [ exp ] *)
Definition parse_int_part (s : string) : option (string * string) :=
  match s with
  | String c r =>
      if Ascii.eqb c "0" then Some ("0", r)
      else if is_digit c then let '(ds, r') := span is_digit r in Some (String c ds, r')
      else None
  | EmptyString => None
  end.

Definition parse_digits1 (s : string) : option (string * string) :=
  match span is_digit s with
  | (EmptyString, _) => None
  | (ds, r) => Some (ds, r)
  end.

Definition parse_frac (s : string) : option (string * string) :=
  match s with
  | String c r =>
      if Ascii.eqb c "." then prepend "." (parse_digits1 r) else Some ("", s)
  | EmptyString => Some ("", s)
  end.

Definition parse_exp (s : string) : option (string * string) :=
  match s with
  | String c r =>
      if Ascii.eqb c "e" || Ascii.eqb c "E" then
        match r with
        | String sg r' =>
            if Ascii.eqb sg "+" || Ascii.eqb sg "-"
            then prepend (String c (String sg "")) (parse_digits1 r')
            else prepend (String c "") (parse_digits1 r)
        | EmptyString => None
        end
      else Some ("", s)
  | EmptyString => Some ("", s)
  end.

Definition parse_number (s : string) : option (string * string) :=
  let '(sign, s1) :=
    match s with
    | String c r => if Ascii.eqb c "-" then ("-", r) else ("", s)
    | EmptyString => ("", s)
    end in
  match parse_int_part s1 with
  | None => None
  | Some (i, s2) =>
      match parse_frac s2 with
      | None => None
      | Some (f, s3) =>
          match parse_exp s3 with
          | None => None
          | Some (e, s4) => Some (sign +:+ i +:+ f +:+ e, s4)
          end
      end
  end.

(** A literal name or a number. *)
Definition parse_atom (s : string) : option (Value * string) :=
  match strip_prefix "null" s with
  | Some r => Some (NONE, r)
  | None =>
  match strip_prefix "true" s with
  | Some r => Some (BOOLEAN true, r)
  | None =>
  match strip_prefix "false" s with
  | Some r => Some (BOOLEAN false, r)
  | None =>
  match parse_number s with
  | Some (n, r) => Some (NUMBER n, r)
  | None => None
  end end end end.

(** Recursive descent over values, array elements and object members;
    every call spends one unit of [fuel], and no call chain on an input
    [s] is longer than [length s]. *)
Fixpoint parse_value (fuel : nat) (s : string) : option (Value * string) :=
  match fuel with
  | O => None
  | S fuel' =>
      match skip_ws s with
      | EmptyString => None
      | String c r =>
          if Ascii.eqb c "[" then
            match skip_ws r with
            | String c' r' =>
                if Ascii.eqb c' "]" then Some (LIST [], r')
                else match parse_elems fuel' r with
                     | Some (vs, r2) => Some (LIST vs, r2)
                     | None => None
                     end
            | EmptyString => None
            end
          else if Ascii.eqb c "{" then
            match skip_ws r with
            | String c' r' =>
                if Ascii.eqb c' "}" then Some (DICTIONARY [], r')
                else match parse_members fuel' r [] with
                     | Some (d, r2) => Some (DICTIONARY d, r2)
                     | None => None
                     end
            | EmptyString => None
            end
          else if Ascii.eqb c dquote then
            match parse_string_body r with
            | Some (str, r') => Some (STRING str, r')
            | None => None
            end
          else parse_atom (String c r)
      end
  end
with parse_elems (fuel : nat) (s : string) : option (list Value * string) :=
  match fuel with
  | O => None
  | S fuel' =>
      match parse_value fuel' s with
      | None => None
      | Some (v, r) =>
          match skip_ws r with
          | String c r' =>
              if Ascii.eqb c "," then
                match parse_elems fuel' r' with
                | Some (vs, r2) => Some (v :: vs, r2)
                | None => None
                end
              else if Ascii.eqb c "]" then Some ([v], r')
              else None
          | EmptyString => None
          end
      end
  end
with parse_members (fuel : nat) (s : string) (d : list (string * Value))
  : option (list (string * Value) * string) :=
  match fuel with
  | O => None
  | S fuel' =>
      match skip_ws s with
      | String q r =>
          if Ascii.eqb q dquote then
            match parse_string_body r with
            | None => None
            | Some (k, r1) =>
                match skip_ws r1 with
                | String colon r2 =>
                    if Ascii.eqb colon ":" then
                      match parse_value fuel' r2 with
                      | None => None
                      | Some (v, r3) =>
                          match skip_ws r3 with
                          | String c r4 =>
                              if Ascii.eqb c "," then
                                parse_members fuel' r4 (SetKey k v d)
                              else if Ascii.eqb c "}" then Some (SetKey k v d, r4)
                              else None
                          | EmptyString => None
                          end
                      end
                    else None
                | EmptyString => None
                end
            end
          else None
      | EmptyString => None
      end
  end.

(** [base::JSONReader::ReadAndReturnError] with [JSON_PARSE_RFC]: one
    value, then nothing but white space; [None] is the null pointer. *)
Definition JSONReader_Read (json : string) : option Value :=
  match parse_value (S (String.length json)) json with
  | Some (v, r) => match skip_ws r with EmptyString => Some v | _ => None end
  | None => None
  end.

(** *** Writer *)

Definition hex_upper (n : N) : ascii :=
  if (n <? 10)%N then byte (48 + n) else byte (55 + n).

(** [base::EscapeJSONString] on one byte. *)
Definition escape_char (c : ascii) : string :=
  if Ascii.eqb c "008" then "\b"
  else if Ascii.eqb c "012" then "\f"
  else if Ascii.eqb c "010" then "\n"
  else if Ascii.eqb c "013" then "\r"
  else if Ascii.eqb c "009" then "\t"
  else if Ascii.eqb c backslash then "\\"
  else if Ascii.eqb c dquote then String backslash (String dquote "")
  else if Ascii.eqb c "<" then "\u003C"
  else if (N_of_ascii c <? 32)%N then
    "\u00" +:+ String (hex_upper (N_of_ascii c / 16))
                 (String (hex_upper (N_of_ascii c mod 16)) "")
  else String c "".

Fixpoint EscapeJSONString (s : string) : string :=
  match s with
  | EmptyString => ""
  | String c r => escape_char c +:+ EscapeJSONString r
  end.

Definition quoted (s : string) : string :=
  String dquote (EscapeJSONString s +:+ String dquote "").

Fixpoint join_comma (l : list string) : string :=
  match l with
  | [] => ""
  | [x] => x
  | x :: l' => x +:+ "," +:+ join_comma l'
  end.

(** [base::JSONWriter::WriteWithOptions] with options [0] (compact). *)
Fixpoint JSONWriter_Write (v : Value) : string :=
  match v with
  | NONE => "null"
  | BOOLEAN true => "true"
  | BOOLEAN false => "false"
  | NUMBER lexeme => lexeme
  | STRING s => quoted s
  | LIST l => "[" +:+ join_comma (map JSONWriter_Write l) +:+ "]"
  | DICTIONARY d =>
      "{" +:+ join_comma (map (fun kv => quoted (fst kv) +:+ ":" +:+ JSONWriter_Write (snd kv)) d)
      +:+ "}"
  end.

End Json.
Export Json.

(** ** The store and its operations *)

Module Store.

(** How a call ends: it returns, or the process dies on a failed
    [CHECK], on a failed [DCHECK] of a DCHECK-enabled build, or on a
    null pointer dereference. *)
Inductive outcome (A : Type) : Type :=
| Done (a : A)
| Crash.
Arguments Done {A} a.
Arguments Crash {A}.

(** The object and its surroundings.  [level_db_] tells whether the
    handle is non-null; [db] is the content of the [brave_sync_db]
    directory, which outlives the handle.  The engine is an ordered
    byte-string map whose [Get], [Put] and [Delete] succeed once it is
    open ([Get] of a missing key is [NotFound]); [openable] tells
    whether [leveldb::DB::Open] succeeds; [dcheck_is_on] is the build
    flag under which [DCHECK] and [NOTREACHED] are fatal. *)
Record ObjectMap : Type := mkObjectMap {
  dcheck_is_on : bool;
  openable : bool;
  api_version_ : string;
  level_db_ : bool;
  db : gmap string string;
}.

Definition with_db (s : ObjectMap) (m : gmap string string) : ObjectMap :=
  mkObjectMap (dcheck_is_on s) (openable s) (api_version_ s) (level_db_ s) m.

Definition with_level_db (s : ObjectMap) (h : bool) : ObjectMap :=
  mkObjectMap (dcheck_is_on s) (openable s) (api_version_ s) h (db s).


(** Member functions: state passing with abrupt termination. *)
Definition M (A : Type) : Type := ObjectMap -> outcome (A * ObjectMap).

Definition ret {A} (a : A) : M A := fun s => Done (a, s).

Definition bind {A B} (m : M A) (k : A -> M B) : M B :=
  fun s => match m s with
           | Done (a, s') => k a s'
           | Crash => Crash
           end.

Notation "x <- m ;; k" := (bind m (fun x => k))
  (at level 100, m at next level, right associativity).
Notation "m ;;; k" := (bind m (fun _ => k))
  (at level 100, right associativity).

Definition get_state : M ObjectMap := fun s => Done (s, s).
Definition crash {A} : M A := fun _ => Crash.

Definition DCHECK (cond : bool) : M unit :=
  fun s => if dcheck_is_on s && negb cond then Crash else Done (tt, s).

Definition NOTREACHED : M unit := DCHECK false.

(** What a call returned, if it returned. *)
Definition returned {A} (o : outcome (A * ObjectMap)) : option A :=
  match o with
  | Done (a, _) => Some a
  | Crash => None
  end.

(** The call [m] in state [st] crashes, or returns and leaves the
    state as it was. *)
Definition reads_only {A} (m : M A) (st : ObjectMap) : Prop :=
  m st = Crash \/ exists a, m st = Done (a, st).

(** The handle is open or can be opened. *)
Definition available (s : ObjectMap) : bool := level_db_ s || openable s.

(** The object [s] with its handle open over the content [m]. *)
Definition open_state (s : ObjectMap) (m : gmap string string) : ObjectMap :=
  mkObjectMap (dcheck_is_on s) (openable s) (api_version_ s) true m.

(** *** The engine, through the handle

    Modelled from the spec: the storage engine ([leveldb::DB]), an
    ordered byte-string map with [Get], [Put] and [Delete]; a call
    through a null handle does not return. *)

Definition level_db_Get (key : string) : M (option string) :=
  fun s => if level_db_ s then Done (db s !! key, s) else Crash.

Definition level_db_Put (key value : string) : M bool :=
  fun s => if level_db_ s then Done (true, with_db s (<[key := value]> (db s)))
           else Crash.

Definition level_db_Delete (key : string) : M bool :=
  fun s => if level_db_ s then Done (true, with_db s (delete key (db s)))
           else Crash.


(** [ObjectMap::TraceAll]: the scan only logs; it goes through the
    handle. *)
Definition TraceAll : M unit :=
  fun s => if level_db_ s then Done (tt, s) else Crash.

(** [ObjectMap::CreateOpenDatabase]. *)
Definition CreateOpenDatabase : M bool :=
  fun s =>
    if level_db_ s then Done (true, s)
    else if openable s then (TraceAll ;;; ret true) (with_level_db s true)
    else Done (false, s).

(** [ObjectMap::CloseDBHandle]. *)
Definition CloseDBHandle : M unit :=
  fun s => Done (tt, with_level_db s false).


(** [ObjectMap::ResetSync]. *)
Definition ResetSync (key : string) : M unit :=
  opened <- CreateOpenDatabase ;;
  if negb opened then ret tt else level_db_Delete key ;;; ret tt.

(** [ObjectMap::GetLocalIdByObjectIdOnThread]. *)
Definition GetLocalIdByObjectIdOnThread (type : Type_) (object_id : string)
  : M string :=
  opened <- CreateOpenDatabase ;;
  if negb opened then ret ""
  else
    r <- level_db_Get object_id ;;
    match r with
    | None => ret ""
    | Some value =>
        let '(local_id, read_type) := SplitRawLocalId value in
        DCHECK (bool_decide (type = read_type)) ;;;
        ret local_id
    end.

(** [ObjectMap::GetRawJsonByLocalId]. *)
Definition GetRawJsonByLocalId (local_id : string) : M string :=
  opened <- CreateOpenDatabase ;;
  if negb opened then ret ""
  else
    r <- level_db_Get local_id ;;
    ret (default "" r).

(** [val_entry.FindKey(key)->GetString()]: [FindKey] checks that the
    value is a dictionary and returns null for a missing key;
    [GetString] checks that the value is a string. *)
Definition FindKey_GetString (val_entry : Value) (key : string) : M string :=
  match val_entry with
  | DICTIONARY d =>
      match dict_find key d with
      | Some (STRING str) => ret str
      | Some _ => crash
      | None => crash
      end
  | _ => crash
  end.

(** What [GetParsedDataByLocalId] leaves in its out-parameters, each
    of which the callers pass empty. *)
Record ParsedData : Type := mkParsedData {
  parsed : bool;
  object_id_out : string;
  order_out : string;
  api_version_out : string;
}.

Definition not_parsed : ParsedData := mkParsedData false "" "" "".

(** [ObjectMap::GetParsedDataByLocalId]; [want_object_id],
    [want_order] and [want_api_version] tell which of the three
    out-pointers are non-null. *)
Definition GetParsedDataByLocalId (type : Type_) (local_id : string)
    (want_object_id want_order want_api_version : bool) : M ParsedData :=
  let raw_local_id := ComposeRawLocalId type local_id in
  json <- GetRawJsonByLocalId raw_local_id ;;
  if String.eqb json "" then
    TraceAll ;;; ret not_parsed
  else
    match JSONReader_Read json with
    | None => ret not_parsed
    | Some val =>
        DCHECK (is_list val) ;;;
        DCHECK (match val with LIST l => Nat.eqb (length l) 1 | _ => false end) ;;;
        match val with
        | LIST [val_entry] =>
            object_id <- (if want_object_id
                          then FindKey_GetString val_entry "object_id"
                          else ret "") ;;
            order <- (if want_order
                      then FindKey_GetString val_entry "order"
                      else ret "") ;;
            api_version <- (if want_api_version
                            then FindKey_GetString val_entry "apiVersion"
                            else ret "") ;;
            ret (mkParsedData true object_id order api_version)
        | _ => ret not_parsed
        end
    end.

(** [ObjectMap::GetObjectIdByLocalIdOnThread]. *)
Definition GetObjectIdByLocalIdOnThread (type : Type_) (local_id : string)
  : M string :=
  p <- GetParsedDataByLocalId type local_id true false false ;;
  ret (object_id_out p).

(** [ObjectMap::GetOrderByLocalObjectIdOnThread]. *)
Definition GetOrderByLocalObjectIdOnThread (type : Type_) (local_id : string)
  : M string :=
  p <- GetParsedDataByLocalId type local_id true true false ;;
  ret (order_out p).

(** [ObjectMap::GetOrderByLocalObjectIdsOnThread]. *)
Fixpoint GetOrderByLocalObjectIdsOnThread (type : Type_) (local_ids : list string)
  : M (list string) :=
  match local_ids with
  | [] => ret []
  | local_id :: rest =>
      order <- GetOrderByLocalObjectIdOnThread type local_id ;;
      orders <- GetOrderByLocalObjectIdsOnThread type rest ;;
      ret (order :: orders)
  end.

(** [ObjectMap::GetOrderByObjectIdOnThread]. *)
Definition GetOrderByObjectIdOnThread (type : Type_) (object_id : string)
  : M string :=
  local_id <- GetLocalIdByObjectIdOnThread type object_id ;;
  p <- GetParsedDataByLocalId type local_id true true false ;;
  DCHECK (String.eqb (object_id_out p) object_id) ;;;
  ret (order_out p).

(** [ObjectMap::SaveObjectIdRawJson]. *)
Definition SaveObjectIdRawJson (raw_local_id object_id_JSON object_id : string)
  : M bool :=
  opened <- CreateOpenDatabase ;;
  if negb opened then ret false
  else
    ok1 <- level_db_Put raw_local_id object_id_JSON ;;
    if negb ok1 then ret false
    else
      ok2 <- level_db_Put object_id raw_local_id ;;
      if negb ok2 then ret false else ret true.

Definition q : string := String dquote "".

(** The literal pieces of the two record texts, escapes resolved. *)
Definition lit_object_id : string := Eval cbv in "[{" +:+ q +:+ "object_id" +:+ q +:+ ": " +:+ q.
Definition lit_order : string := Eval cbv in q +:+ ", " +:+ q +:+ "order" +:+ q +:+ ": " +:+ q.
Definition lit_apiVersion : string := Eval cbv in q +:+ ", " +:+ q +:+ "apiVersion" +:+ q +:+ ": " +:+ q.
Definition lit_apiVersion_unquoted : string := Eval cbv in q +:+ ", apiVersion" +:+ q +:+ ": " +:+ q.
Definition lit_close : string := Eval cbv in q +:+ "}]".

(** The text [SaveObjectIdOnThread] concatenates. *)
Definition object_id_json (object_id api_version : string) : string :=
  lit_object_id +:+ object_id +:+ lit_apiVersion_unquoted
  +:+ api_version +:+ lit_close.

(** The text [SaveObjectIdAndOrderInternal] concatenates. *)
Definition object_id_order_json (object_id order api_version : string) : string :=
  lit_object_id +:+ object_id +:+ lit_order +:+ order
  +:+ lit_apiVersion +:+ api_version +:+ lit_close.

(** [ObjectMap::SaveObjectIdOnThread]. *)
Definition SaveObjectIdOnThread (type : Type_) (local_id object_id : string)
  : M bool :=
  s <- get_state ;;
  let json := object_id_json object_id (api_version_ s) in
  SaveObjectIdRawJson (ComposeRawLocalId type local_id) json object_id.

(** [ObjectMap::SaveObjectIdAndOrderInternal]. *)
Definition SaveObjectIdAndOrderInternal (type : Type_)
    (local_id object_id order : string) : M bool :=
  s <- get_state ;;
  DCHECK (negb (String.eqb (api_version_ s) "")) ;;;
  let json := object_id_order_json object_id order (api_version_ s) in
  SaveObjectIdRawJson (ComposeRawLocalId type local_id) json object_id.

(** [ObjectMap::SaveObjectIdAndOrderOnThread]. *)
Definition SaveObjectIdAndOrderOnThread (type : Type_)
    (local_id object_id order : string) : M bool :=
  SaveObjectIdAndOrderInternal type local_id object_id order.

(** [ObjectMap::UpdateOrderByLocalObjectIdOnThread]. *)
Definition UpdateOrderByLocalObjectIdOnThread (type : Type_)
    (local_id new_order : string) : M bool :=
  p <- GetParsedDataByLocalId type local_id true true false ;;
  if negb (parsed p) || String.eqb (object_id_out p) "" then ret false
  else SaveObjectIdAndOrderInternal type local_id (object_id_out p) new_order.

(** [ObjectMap::SaveSpecialJson] posts this call. *)
Definition SaveSpecialJsonOnThread (local_id special_JSON : string) : M bool :=
  SaveObjectIdRawJson local_id special_JSON "".

(** [ObjectMap::DeleteByLocalIdOnThread]. *)
Definition DeleteByLocalIdOnThread (type : Type_) (local_id : string) : M bool :=
  opened <- CreateOpenDatabase ;;
  if negb opened then ret false
  else
    let raw_local_id := ComposeRawLocalId type local_id in
    p <- GetParsedDataByLocalId type local_id true false false ;;
    ok1 <- level_db_Delete raw_local_id ;;
    if negb ok1 then ret false
    else if parsed p && negb (String.eqb (object_id_out p) "") then
      ok2 <- level_db_Delete (object_id_out p) ;;
      if negb ok2 then ret false else ret true
    else ret true.

End Store.
Export Store.

(** ** The not-synced record set *)

Module NotSynced.

(** [ObjectMap::NotSyncedRecordsOperation], the enum of the class
    declaration ([object_map.h], the second half of
    [components/brave_rewards/browser/rewards_notifications_service.h]):
    [GetItems = 0], [AddItems = 1], [DeleteItems = 2]. *)
Inductive NotSyncedRecordsOperation : Set := GetItems | AddItems | DeleteItems.

(** Modelled from the spec: [jslib_const::DELETE_RECORD], the
    "full delete" action code of [jslib_const.h]; the value is the
    one the source notes beside its use. *)
Definition DELETE_RECORD : string := "2".

(** [std::set<const std::string>] is a finite set of strings; a
    range-for over it visits the elements in ascending byte order. *)
Definition in_order (X : gset string) : list string :=
  merge_sort String.le (elements X).

(** [Value::GetString]. *)
Definition GetString (v : Value) : M string :=
  match v with
  | STRING str => ret str
  | _ => crash
  end.

Fixpoint insert_all (vals : list Value) (acc : gset string) : M (gset string) :=
  match vals with
  | [] => ret acc
  | val :: rest =>
      str <- GetString val ;;
      insert_all rest ({[ str ]} ∪ acc)
  end.

(** [ObjectMap::DeserializeList]; [Value::GetList] checks that the
    value is a list. *)
Definition DeserializeList (raw : string) : M (gset string) :=
  match JSONReader_Read raw with
  | None => ret ∅
  | Some list =>
      DCHECK (is_list list) ;;;
      match list with
      | LIST vals => insert_all vals ∅
      | _ => crash
      end
  end.

(** [ObjectMap::SerializeList]; the writer succeeds on a list of
    strings, so [DCHECK(result)] holds. *)
Definition SerializeList (existing_list : gset string) : string :=
  JSONWriter_Write (LIST (map STRING (in_order existing_list))).

(** [ObjectMap::GetNotSyncedRecords]. *)
Definition GetNotSyncedRecords (key : string) : M (gset string) :=
  raw <- GetRawJsonByLocalId key ;;
  DeserializeList raw.

(** [ObjectMap::SaveNotSyncedRecords]. *)
Definition SaveNotSyncedRecords (key : string) (existing_list : gset string)
  : M bool :=
  SaveObjectIdRawJson key (SerializeList existing_list) "".

(** The body of the [DeleteItems] loop over [local_ids];
    [list_changed] is written and never read. *)
Fixpoint erase_all (type : Type_) (clear_local_db : bool) (ids : list string)
    (existing_list : gset string) : M (gset string) :=
  match ids with
  | [] => ret existing_list
  | id :: rest =>
      let items_removed := if decide (id ∈ existing_list) then 1 else 0 in
      let existing_list' := existing_list ∖ {[ id ]} in
      (if clear_local_db && negb (Nat.eqb items_removed 0)
       then DeleteByLocalIdOnThread type id ;;; ret tt
       else ret tt) ;;;
      erase_all type clear_local_db rest existing_list'
  end.

(** The key under which the set of [(type, action)] is stored. *)
Definition not_synced_key (type : Type_) (action : string) : string :=
  match type with
  | Bookmark => "BOOKMARKS"
  | History => "HISTORY_SITES"
  | Unset => ""
  end +:+ action.

Definition record_type (type : Type_) : M string :=
  match type with
  | Bookmark => ret "BOOKMARKS"
  | History => ret "HISTORY_SITES"
  | Unset => NOTREACHED ;;; ret ""
  end.

(** [ObjectMap::SaveGetDeleteNotSyncedRecordsOnThread]. *)
Definition SaveGetDeleteNotSyncedRecordsOnThread (type : Type_) (action : string)
    (local_ids : gset string) (operation : NotSyncedRecordsOperation)
  : M (gset string) :=
  recordType <- record_type type ;;
  let key := recordType +:+ action in
  existing_list <- GetNotSyncedRecords key ;;
  match operation with
  | GetItems => ret existing_list
  | _ =>
      existing_list' <-
        match operation with
        | AddItems => ret (foldl (fun acc id => {[ id ]} ∪ acc) existing_list
                             (in_order local_ids))
        | _ =>
            let clear_local_db := String.eqb action DELETE_RECORD in
            erase_all type clear_local_db (in_order local_ids) existing_list
        end ;;
      saved <- SaveNotSyncedRecords key existing_list' ;;
      if saved then ret existing_list' else ret ∅
  end.

End NotSynced.
Export NotSynced.

(** ** Scenarios *)

Module Scenario.

(** A store that has never been opened, API version set; [fresh]
    takes the build flag. *)
Definition fresh (dcheck : bool) : ObjectMap :=
  mkObjectMap dcheck true "v1" false ∅.

(** A store whose database cannot be opened. *)
Definition broken : ObjectMap := mkObjectMap false false "v1" false ∅.

(** The content after [SaveObjectIdAndOrderOnThread type local_id
    object_id order] on an empty database with API version ["v1"]. *)
Definition saved (type : Type_) (local_id object_id order : string)
  : gmap string string :=
  <[object_id := ComposeRawLocalId type local_id]>
    (<[ComposeRawLocalId type local_id
       := object_id_order_json object_id order "v1"]> ∅).

(** A well-formed record that carries no [order] field. *)
Definition record_without_order : string :=
  lit_object_id +:+ "obj-abc" +:+ lit_apiVersion +:+ "v1" +:+ lit_close.

(** A well-formed record that carries no [object_id] field. *)
Definition record_without_object_id : string :=
  Eval cbv in "[{" +:+ q +:+ "order" +:+ q +:+ ": " +:+ q +:+ "1.1.1" +:+ lit_close.


(** A store that is not open yet and whose database holds [content]. *)
Definition on_disk (content : gmap string string) : ObjectMap :=
  mkObjectMap true true "v1" false content.


End Scenario.
Export Scenario.

(** ** What a call leaves alone, and what the content holds *)

Module Observation.

(** A call that, when it returns, has left the stored content and the
    API version as they were. *)
Definition keeps_content {A} (m : M A) : Prop :=
  forall s a s', m s = Done (a, s') ->
    db s' = db s /\ api_version_ s' = api_version_ s.

(** A JSON value that is an array of strings. *)
Definition string_array (v : Value) : Prop :=
  exists l, v = LIST (map STRING l).

(** What [DeserializeList] accepts under [key], and the set it stands
    for: no value or a value that is not JSON stands for the empty
    set, a JSON array of strings for the set of its elements. *)
Definition stored_set (content : gmap string string) (key : string)
    (X : gset string) : Prop :=
  match JSONReader_Read (default "" (content !! key)) with
  | None => X = ∅
  | Some v => exists l, v = LIST (map STRING l) /\ X = list_to_set l
  end.

(** The two entries of a mapping as [SaveObjectIdAndOrderInternal]
    writes them: the record of [(type, local_id)] under the composed
    key, and the composed key under a non-empty object id. *)
Definition mapped (content : gmap string string) (type : Type_)
    (local_id object_id order api_version : string) : Prop :=
  plain_string object_id = true
  /\ plain_string order = true
  /\ plain_string api_version = true
  /\ object_id <> ""
  /\ content !! ComposeRawLocalId type local_id
     = Some (object_id_order_json object_id order api_version)
  /\ content !! object_id = Some (ComposeRawLocalId type local_id).

End Observation.
Export Observation.

(** * Properties *)

(** ** Key codec *)

Section KeyCodec.

Lemma SplitRawLocalId_Bookmark local_id :
  SplitRawLocalId (ComposeRawLocalId Bookmark local_id) = (local_id, Bookmark).
Proof. reflexivity. Qed.

Lemma SplitRawLocalId_History local_id :
  SplitRawLocalId (ComposeRawLocalId History local_id) = (local_id, History).
Proof. reflexivity. Qed.

Lemma SplitRawLocalId_unprefixed local_id :
  prefixed local_id = false ->
  SplitRawLocalId local_id = (local_id, Unset).
Proof.
  destruct local_id as [|c r]; [reflexivity|].
  cbn. intros [Hb Hh]%orb_false_elim. now rewrite Hb, Hh.
Qed.

Lemma split_compose type local_id :
  (type = Unset -> prefixed local_id = false) ->
  SplitRawLocalId (ComposeRawLocalId type local_id) = (local_id, type).
Proof.
  destruct type; intros H.
  - now apply SplitRawLocalId_unprefixed, H.
  - apply SplitRawLocalId_Bookmark.
  - apply SplitRawLocalId_History.
Qed.

(** C1, as stated, fails: the composed key of the [Unset] local id
    ["b1"] is ["b1"] itself, which decodes to local id ["1"] of
    category [Bookmark]. *)
Lemma split_compose_Unset_counterexample :
  ~ (forall (c : Type_) (s : string),
       SplitRawLocalId (ComposeRawLocalId c s) = (s, c)).
Proof. intros H. specialize (H Unset "b1"). discriminate H. Qed.

(** C1, amended: decoding a composed key gives back the local id and
    the category for [Bookmark] and [History] with every local id,
    and for [Unset] with every local id that is empty or whose first
    byte is neither ['b'] nor ['h']. *)
Theorem split_compose_roundtrip (c : Type_) (s : string) :
  (c = Unset -> prefixed s = false) ->
  SplitRawLocalId (ComposeRawLocalId c s) = (s, c).
Proof.
  intros Hkey. destruct c.
  - destruct s as [|x r]; [reflexivity|].
    specialize (Hkey eq_refl). cbn in Hkey.
    apply orb_false_elim in Hkey as [Hb Hh].
    cbn. now rewrite Hb, Hh.
  - reflexivity.
  - reflexivity.
Qed.

Lemma split_compose_roundtrip_witness :
  SplitRawLocalId (ComposeRawLocalId Unset "123") = ("123", Unset)
  /\ SplitRawLocalId (ComposeRawLocalId Bookmark "b1") = ("b1", Bookmark).
Proof.
  split.
  - apply (split_compose_roundtrip Unset "123"). intros _. reflexivity.
  - apply (split_compose_roundtrip Bookmark "b1"). intros H. discriminate H.
Defined.

End KeyCodec.

(** ** The JSON reader on the texts ObjectMap writes *)

Lemma append_String c a b : String c a +:+ b = String c (a +:+ b).
Proof. reflexivity. Qed.

Lemma append_Empty b : "" +:+ b = b.
Proof. reflexivity. Qed.

Lemma append_assoc a b c : (a +:+ b) +:+ c = a +:+ (b +:+ c).
Proof. induction a as [|x a IH]; [reflexivity|]. now rewrite !append_String, IH. Qed.

Lemma length_append a b :
  String.length (a +:+ b) = String.length a + String.length b.
Proof. induction a as [|x a IH]; [reflexivity|]. rewrite append_String. cbn. now rewrite IH. Qed.

Lemma prepend_Some p s rest : prepend p (Some (s, rest)) = Some (p +:+ s, rest).
Proof. reflexivity. Qed.

Lemma parse_string_body_quote r :
  parse_string_body (String dquote r) = Some ("", r).
Proof. reflexivity. Qed.

Lemma parse_string_body_plain_char c r :
  plain_char c = true ->
  parse_string_body (String c r) = prepend (String c "") (parse_string_body r).
Proof.
  unfold plain_char. intros H.
  apply andb_prop in H as [H H3]. apply andb_prop in H as [H1 H2].
  apply negb_true_iff in H1, H2.
  simpl. now rewrite H1, H2, H3.
Qed.

(** A plain string followed by a quote is read back as it is. *)
Lemma parse_string_body_plain s rest :
  plain_string s = true ->
  parse_string_body (s +:+ String dquote rest) = Some (s, rest).
Proof.
  induction s as [|c s IH]; intros H; [reflexivity|].
  simpl in H. apply andb_prop in H as [Hc Hs].
  rewrite append_String, parse_string_body_plain_char by assumption.
  now rewrite IH.
Qed.

(** The reader undoes the writer's escaping, byte by byte. *)
Lemma parse_string_body_escape_char c r :
  parse_string_body (escape_char c +:+ r)
  = prepend (String c "") (parse_string_body r).
Proof. destruct c as [[] [] [] [] [] [] [] []]; reflexivity. Qed.

Lemma parse_string_body_escaped s rest :
  parse_string_body (EscapeJSONString s +:+ String dquote rest) = Some (s, rest).
Proof.
  induction s as [|c s IH]; [reflexivity|].
  cbn [EscapeJSONString]. rewrite append_assoc, parse_string_body_escape_char.
  now rewrite IH.
Qed.

#[local] Arguments parse_string_body : simpl never.

Ltac norm_append := repeat (rewrite append_String || rewrite append_Empty).

(** Runs the reader over the literal bytes in front of the next
    variable part of the text. *)
Ltac parse_literal :=
  cbn;
  repeat (rewrite parse_string_body_plain_char by reflexivity);
  try rewrite parse_string_body_quote;
  cbn; norm_append.

Lemma parse_value_order_record n O Ord V :
  plain_string O = true -> plain_string Ord = true -> plain_string V = true ->
  parse_value (8 + n) (object_id_order_json O Ord V)
  = Some (LIST [DICTIONARY [("apiVersion", STRING V); ("object_id", STRING O);
                            ("order", STRING Ord)]], "").
Proof.
  intros HO HOrd HV.
  unfold object_id_order_json, lit_object_id, lit_order, lit_apiVersion, lit_close.
  norm_append. parse_literal.
  rewrite (parse_string_body_plain O) by assumption. parse_literal.
  rewrite (parse_string_body_plain Ord) by assumption. parse_literal.
  rewrite (parse_string_body_plain V) by assumption. cbn.
  reflexivity.
Qed.

Lemma length_order_record O Ord V :
  String.length (object_id_order_json O Ord V)
  = 50 + String.length O + String.length Ord + String.length V.
Proof.
  unfold object_id_order_json. rewrite !length_append.
  unfold lit_object_id, lit_order, lit_apiVersion, lit_close. cbn. lia.
Qed.

(** The record of [SaveObjectIdAndOrderInternal] is read back as a
    one-element list holding the three fields, when the three strings
    are plain. *)
Lemma JSONReader_Read_order_record O Ord V :
  plain_string O = true -> plain_string Ord = true -> plain_string V = true ->
  JSONReader_Read (object_id_order_json O Ord V)
  = Some (LIST [DICTIONARY [("apiVersion", STRING V); ("object_id", STRING O);
                            ("order", STRING Ord)]]).
Proof.
  intros HO HOrd HV. unfold JSONReader_Read.
  rewrite length_order_record.
  change (S (50 + String.length O + String.length Ord + String.length V))
    with (8 + (43 + String.length O + String.length Ord + String.length V)).
  now rewrite parse_value_order_record.
Qed.

Lemma order_record_not_empty O Ord V : object_id_order_json O Ord V <> "".
Proof. discriminate. Qed.

Lemma parse_value_quoted n s rest :
  parse_value (S n) (quoted s +:+ rest) = Some (STRING s, rest).
Proof.
  unfold quoted. rewrite append_String, append_assoc, append_String, append_Empty.
  cbn. now rewrite parse_string_body_escaped.
Qed.

Lemma parse_elems_S n s :
  parse_elems (S n) s
  = match parse_value n s with
    | None => None
    | Some (v, r) =>
        match skip_ws r with
        | String c r' =>
            if Ascii.eqb c "," then
              match parse_elems n r' with
              | Some (vs, r2) => Some (v :: vs, r2)
              | None => None
              end
            else if Ascii.eqb c "]" then Some ([v], r')
            else None
        | EmptyString => None
        end
    end.
Proof. reflexivity. Qed.

Lemma parse_elems_strings l : forall n rest,
  l <> [] -> length l < n ->
  parse_elems n (join_comma (map quoted l) +:+ String "]" rest)
  = Some (map STRING l, rest).
Proof.
  induction l as [|x l IH]; intros n rest Hne Hn; [congruence|].
  destruct n as [|n]; [cbn in Hn; lia|].
  destruct n as [|n]; [cbn in Hn; lia|].
  destruct l as [|y l].
  - cbn [map join_comma]. rewrite parse_elems_S.
    rewrite parse_value_quoted. reflexivity.
  - change (join_comma (map quoted (x :: y :: l)))
      with (quoted x +:+ "," +:+ join_comma (map quoted (y :: l))).
    rewrite parse_elems_S, append_assoc, parse_value_quoted.
    rewrite append_assoc, append_String, append_Empty.
    cbn [skip_ws is_ws Ascii.eqb Bool.eqb orb].
    rewrite IH; [reflexivity|discriminate|cbn in *; lia].
Qed.

Lemma length_join_quoted l :
  length l <= String.length (join_comma (map quoted l)).
Proof.
  induction l as [|x l IH]; [cbn; lia|].
  destruct l as [|y l].
  - cbn. lia.
  - change (join_comma (map quoted (x :: y :: l)))
      with (quoted x +:+ "," +:+ join_comma (map quoted (y :: l))).
    rewrite !length_append. cbn in *. lia.
Qed.

Lemma parse_value_open_list n r :
  parse_value (S n) (String "[" (String dquote r))
  = match parse_elems n (String dquote r) with
    | Some (vs, r2) => Some (LIST vs, r2)
    | None => None
    end.
Proof. reflexivity. Qed.

(** The reader undoes the writer on a list of strings. *)
Lemma JSONReader_Read_strings l :
  JSONReader_Read (JSONWriter_Write (LIST (map STRING l)))
  = Some (LIST (map STRING l)).
Proof.
  destruct l as [|x l]; [reflexivity|].
  unfold JSONReader_Read.
  assert (Hw : JSONWriter_Write (LIST (map STRING (x :: l)))
               = String "[" (join_comma (map quoted (x :: l)) +:+ String "]" "")).
  { cbn [JSONWriter_Write]. rewrite map_map. reflexivity. }
  rewrite Hw. clear Hw.
  pose proof (length_join_quoted (x :: l)) as Hlen.
  set (body := join_comma (map quoted (x :: l))) in *.
  assert (Hq : exists r, body +:+ String "]" "" = String dquote r).
  { subst body. destruct l; cbn [map join_comma]; unfold quoted at 1;
      rewrite !append_String; eauto. }
  destruct Hq as [r Hr].
  assert (Hfuel : exists n, String.length (String "[" (body +:+ String "]" "")) = S n
                            /\ length (x :: l) < n).
  { exists (String.length (body +:+ String "]" "")). split; [reflexivity|].
    rewrite length_append. cbn in *. lia. }
  destruct Hfuel as (n & -> & Hn).
  rewrite Hr, parse_value_open_list, <- Hr.
  subst body. rewrite parse_elems_strings; [reflexivity|discriminate|lia].
Qed.


(** ** The operations on an open store *)

Lemma bind_Done {A B} (m : M A) (k : A -> M B) s a s' :
  m s = Done (a, s') -> bind m k s = k a s'.
Proof. unfold bind. now intros ->. Qed.

Lemma bind_Crash {A B} (m : M A) (k : A -> M B) s :
  m s = Crash -> bind m k s = Crash.
Proof. unfold bind. now intros ->. Qed.

(** Runs the first call of a sequence, whose outcome is [H]. *)
Ltac step H := rewrite (bind_Done _ _ _ _ _ H); cbv beta.

Section OpenStore.

Variable s0 : ObjectMap.

Lemma CreateOpenDatabase_available s :
  available s = true ->
  CreateOpenDatabase s = Done (true, open_state s (db s)).
Proof.
  destruct s as [d o a [] m]; cbn; [reflexivity|].
  intros ->. reflexivity.
Qed.

Lemma CreateOpenDatabase_unavailable s :
  available s = false -> CreateOpenDatabase s = Done (false, s).
Proof. destruct s as [d o a [] m]; cbn; [discriminate|]. now intros ->. Qed.

Lemma CreateOpenDatabase_open m :
  CreateOpenDatabase (open_state s0 m) = Done (true, open_state s0 m).
Proof. reflexivity. Qed.

Lemma GetRawJsonByLocalId_open m k :
  GetRawJsonByLocalId k (open_state s0 m) = Done (default "" (m !! k), open_state s0 m).
Proof. reflexivity. Qed.

Lemma GetLocalIdByObjectIdOnThread_absent m type object_id :
  m !! object_id = None ->
  GetLocalIdByObjectIdOnThread type object_id (open_state s0 m) = Done ("", open_state s0 m).
Proof.
  intros H. unfold GetLocalIdByObjectIdOnThread.
  step (CreateOpenDatabase_open m). cbn [negb].
  unfold bind, level_db_Get, open_state. cbn. now rewrite H.
Qed.

Lemma GetLocalIdByObjectIdOnThread_found m type object_id local_id :
  m !! object_id = Some (ComposeRawLocalId type local_id) ->
  (type = Unset -> prefixed local_id = false) ->
  GetLocalIdByObjectIdOnThread type object_id (open_state s0 m)
  = Done (local_id, open_state s0 m).
Proof.
  intros H Hkey. unfold GetLocalIdByObjectIdOnThread.
  step (CreateOpenDatabase_open m). cbn [negb].
  unfold bind, level_db_Get, open_state. cbn. rewrite H.
  rewrite (split_compose type local_id Hkey).
  unfold DCHECK. cbn. rewrite bool_decide_eq_true_2 by reflexivity.
  cbn. now rewrite andb_false_r.
Qed.

Lemma GetParsedDataByLocalId_absent m type local_id wo wr wa :
  m !! ComposeRawLocalId type local_id = None ->
  GetParsedDataByLocalId type local_id wo wr wa (open_state s0 m)
  = Done (not_parsed, open_state s0 m).
Proof.
  intros H. unfold GetParsedDataByLocalId.
  step (GetRawJsonByLocalId_open m (ComposeRawLocalId type local_id)).
  rewrite H. reflexivity.
Qed.

Lemma GetParsedDataByLocalId_unreadable m type local_id wo wr wa json :
  m !! ComposeRawLocalId type local_id = Some json ->
  JSONReader_Read json = None ->
  GetParsedDataByLocalId type local_id wo wr wa (open_state s0 m)
  = Done (not_parsed, open_state s0 m).
Proof.
  intros H Hread. unfold GetParsedDataByLocalId.
  step (GetRawJsonByLocalId_open m (ComposeRawLocalId type local_id)).
  rewrite H. change (default "" (Some json)) with json. rewrite Hread.
  destruct (String.eqb json ""); reflexivity.
Qed.

Lemma JSONReader_Read_Some_not_empty json v :
  JSONReader_Read json = Some v -> String.eqb json "" = false.
Proof. destruct json; [discriminate|reflexivity]. Qed.

(** Reading [object_id], and [order] if asked for, from a stored
    record that decodes to a one-element list holding a dictionary
    with the fields asked for. *)
Lemma GetParsedDataByLocalId_decoded m type local_id json d O o (wr : bool) :
  m !! ComposeRawLocalId type local_id = Some json ->
  JSONReader_Read json = Some (LIST [DICTIONARY d]) ->
  dict_find "object_id" d = Some (STRING O) ->
  (wr = true -> dict_find "order" d = Some (STRING o)) ->
  GetParsedDataByLocalId type local_id true wr false (open_state s0 m)
  = Done (mkParsedData true O (if wr then o else "") "", open_state s0 m).
Proof.
  intros H Hread HO Ho. unfold GetParsedDataByLocalId.
  step (GetRawJsonByLocalId_open m (ComposeRawLocalId type local_id)).
  rewrite H. change (default "" (Some json)) with json.
  rewrite (JSONReader_Read_Some_not_empty _ _ Hread), Hread.
  unfold bind, DCHECK, open_state. cbn. rewrite !andb_false_r.
  rewrite HO. destruct wr; cbn; [rewrite (Ho eq_refl)|]; reflexivity.
Qed.

Lemma SaveObjectIdRawJson_open m raw json object_id :
  SaveObjectIdRawJson raw json object_id (open_state s0 m)
  = Done (true, open_state s0 (<[object_id := raw]> (<[raw := json]> m))).
Proof. reflexivity. Qed.

End OpenStore.

(** ** Saving and looking up *)

Section SaveLookup.

Lemma SaveObjectIdRawJson_spec s raw json object_id :
  SaveObjectIdRawJson raw json object_id s
  = if available s
    then Done (true, open_state s (<[object_id := raw]> (<[raw := json]> (db s))))
    else Done (false, s).
Proof. destruct s as [d [] a [] m]; reflexivity. Qed.

Lemma SaveObjectIdAndOrderInternal_spec s type local_id object_id order :
  SaveObjectIdAndOrderInternal type local_id object_id order s
  = if dcheck_is_on s && String.eqb (api_version_ s) "" then Crash
    else SaveObjectIdRawJson (ComposeRawLocalId type local_id)
           (object_id_order_json object_id order (api_version_ s)) object_id s.
Proof.
  unfold SaveObjectIdAndOrderInternal, bind, get_state, DCHECK.
  rewrite negb_involutive.
  destruct (dcheck_is_on s && String.eqb (api_version_ s) ""); reflexivity.
Qed.

(** A save that reports success has opened the store and made both
    puts. *)
Lemma SaveObjectIdAndOrderOnThread_true s type local_id object_id order s' :
  SaveObjectIdAndOrderOnThread type local_id object_id order s = Done (true, s') ->
  s' = open_state s
         (<[object_id := ComposeRawLocalId type local_id]>
            (<[ComposeRawLocalId type local_id
                := object_id_order_json object_id order (api_version_ s)]> (db s))).
Proof.
  unfold SaveObjectIdAndOrderOnThread.
  rewrite SaveObjectIdAndOrderInternal_spec, SaveObjectIdRawJson_spec.
  destruct (dcheck_is_on s && String.eqb (api_version_ s) ""); [discriminate|].
  destruct (available s); [|discriminate].
  now intros [= <-].
Qed.

Lemma dict_find_order_record O Ord V :
  let d := [("apiVersion", STRING V); ("object_id", STRING O); ("order", STRING Ord)] in
  dict_find "object_id" d = Some (STRING O)
  /\ dict_find "order" d = Some (STRING Ord).
Proof. split; reflexivity. Qed.

(** The three look-ups on a content that holds the forward record of
    [SaveObjectIdAndOrderInternal] and the reverse entry. *)
Lemma lookups_after_save s m type local_id object_id order :
  plain_string object_id = true ->
  plain_string order = true ->
  plain_string (api_version_ s) = true ->
  m !! ComposeRawLocalId type local_id
    = Some (object_id_order_json object_id order (api_version_ s)) ->
  m !! object_id = Some (ComposeRawLocalId type local_id) ->
  (type = Unset -> prefixed local_id = false) ->
  GetObjectIdByLocalIdOnThread type local_id (open_state s m)
    = Done (object_id, open_state s m)
  /\ GetOrderByLocalObjectIdOnThread type local_id (open_state s m)
    = Done (order, open_state s m)
  /\ GetLocalIdByObjectIdOnThread type object_id (open_state s m)
    = Done (local_id, open_state s m).
Proof.
  intros HO HOrd HV Hfwd Hrev Hkey.
  pose proof (JSONReader_Read_order_record _ _ _ HO HOrd HV) as Hread.
  destruct (dict_find_order_record object_id order (api_version_ s)) as [Hd1 Hd2].
  split; [|split].
  - unfold GetObjectIdByLocalIdOnThread.
    step (GetParsedDataByLocalId_decoded s m type local_id _ _ object_id ""
            false Hfwd Hread Hd1 (fun H => False_ind _ (diff_false_true H))).
    reflexivity.
  - unfold GetOrderByLocalObjectIdOnThread.
    step (GetParsedDataByLocalId_decoded s m type local_id _ _ object_id order
            true Hfwd Hread Hd1 (fun _ => Hd2)).
    reflexivity.
  - now apply GetLocalIdByObjectIdOnThread_found.
Qed.

End SaveLookup.

Section SaveLookupClaims.

(** C2, as stated, fails: an [Unset] local id that starts with a
    category prefix is saved, and the reverse look-up strips the
    prefix from it. *)
Lemma save_then_lookup_counterexample :
  ~ (forall (s : ObjectMap) (c : Type_) (L O Ord : string) (s' : ObjectMap),
       SaveObjectIdAndOrderOnThread c L O Ord s = Done (true, s') ->
       returned (GetObjectIdByLocalIdOnThread c L s') = Some O
       /\ returned (GetOrderByLocalObjectIdOnThread c L s') = Some Ord
       /\ returned (GetLocalIdByObjectIdOnThread c O s') = Some L).
Proof.
  intros H.
  specialize (H (fresh false) Unset "b1" "obj" "1"
                (open_state (fresh false) (saved Unset "b1" "obj" "1")) eq_refl).
  destruct H as (_ & _ & H). vm_compute in H. discriminate H.
Qed.

(** C2, amended: when the object id, the order and the API version
    hold no quote, backslash or control byte, the object id differs
    from the composed key, and the local id of an [Unset] key does not
    start with ['b'] or ['h'], then after a successful
    [SaveObjectIdAndOrderOnThread c L O Ord] the three look-ups return
    [O], [Ord] and [L]. *)
Theorem save_then_lookup (s : ObjectMap) (c : Type_) (L O Ord : string)
    (s' : ObjectMap) :
  plain_string O = true ->
  plain_string Ord = true ->
  plain_string (api_version_ s) = true ->
  O <> ComposeRawLocalId c L ->
  (c = Unset -> prefixed L = false) ->
  SaveObjectIdAndOrderOnThread c L O Ord s = Done (true, s') ->
  returned (GetObjectIdByLocalIdOnThread c L s') = Some O
  /\ returned (GetOrderByLocalObjectIdOnThread c L s') = Some Ord
  /\ returned (GetLocalIdByObjectIdOnThread c O s') = Some L.
Proof.
  intros HO HOrd HV Hne Hkey Hsave.
  apply SaveObjectIdAndOrderOnThread_true in Hsave. subst s'.
  destruct (lookups_after_save s
              (<[O := ComposeRawLocalId c L]>
                 (<[ComposeRawLocalId c L
                    := object_id_order_json O Ord (api_version_ s)]> (db s)))
              c L O Ord HO HOrd HV) as (H1 & H2 & H3).
  - rewrite lookup_insert_ne by assumption. apply lookup_insert_eq.
  - apply lookup_insert_eq.
  - assumption.
  - now rewrite H1, H2, H3.
Qed.

Lemma save_then_lookup_witness :
  let s' := open_state (fresh true) (saved Bookmark "123" "obj-abc" "1.1.1") in
  SaveObjectIdAndOrderOnThread Bookmark "123" "obj-abc" "1.1.1" (fresh true)
    = Done (true, s')
  /\ returned (GetObjectIdByLocalIdOnThread Bookmark "123" s') = Some "obj-abc"
  /\ returned (GetOrderByLocalObjectIdOnThread Bookmark "123" s') = Some "1.1.1"
  /\ returned (GetLocalIdByObjectIdOnThread Bookmark "obj-abc" s') = Some "123".
Proof.
  intros s'. split; [reflexivity|].
  apply (save_then_lookup (fresh true) Bookmark "123" "obj-abc" "1.1.1" s');
    try reflexivity.
  discriminate.
Defined.

End SaveLookupClaims.

(** ** Records written without an order *)

Section RecordWithoutOrder.

(** The text [SaveObjectIdOnThread] writes is not JSON, whatever plain
    object id and API version go into it: the name [apiVersion] lacks
    its opening quote. *)
Lemma JSONReader_Read_object_id_json O V :
  plain_string O = true ->
  JSONReader_Read (object_id_json O V) = None.
Proof.
  intros HO. unfold JSONReader_Read.
  assert (Hp : forall n, parse_value (8 + n) (object_id_json O V) = None).
  { intros n.
    unfold object_id_json, lit_object_id, lit_apiVersion_unquoted, lit_close.
    norm_append. parse_literal.
    rewrite (parse_string_body_plain O) by assumption. cbn.
    reflexivity. }
  assert (Hlen : exists n, S (String.length (object_id_json O V)) = 8 + n).
  { unfold object_id_json. rewrite length_append.
    exists (9 + String.length (O +:+ lit_apiVersion_unquoted +:+ V +:+ lit_close)).
    reflexivity. }
  destruct Hlen as [n ->]. now rewrite Hp.
Qed.

(** C3: the code misses the claim.  [SaveObjectIdOnThread] reports
    success and stores under the composed key a text that the JSON
    reader rejects, so the following look-up returns the empty string
    instead of the object id; and it does not fail when the API
    version is unset, even in a DCHECK build. *)
Theorem SaveObjectIdOnThread_writes_unreadable_record :
  exists s',
    SaveObjectIdOnThread Bookmark "123" "obj-abc" (fresh true) = Done (true, s')
    /\ db s' !! ComposeRawLocalId Bookmark "123"
       = Some (object_id_json "obj-abc" "v1")
    /\ JSONReader_Read (object_id_json "obj-abc" "v1") = None
    /\ GetObjectIdByLocalIdOnThread Bookmark "123" s' = Done ("", s')
    /\ returned (SaveObjectIdOnThread Bookmark "123" "obj-abc"
                   (mkObjectMap true true "" false ∅)) = Some true.
Proof.
  exists (open_state (fresh true)
            (<["obj-abc" := "b123"]>
               (<["b123" := object_id_json "obj-abc" "v1"]> ∅))).
  split; [reflexivity|].
  split; [reflexivity|].
  split; [now apply JSONReader_Read_object_id_json|].
  split; [|reflexivity].
  vm_compute. reflexivity.
Qed.

(** C4: the code misses the claim.  On a well-formed record without
    [order], asking for the order dereferences the null pointer that
    [FindKey] returns, and so does asking for the object id of a
    record without [object_id]: neither call returns. *)
Theorem GetParsedDataByLocalId_absent_field_crashes :
  exists s1 s2,
    SaveSpecialJsonOnThread "b123" record_without_order (fresh false)
      = Done (true, s1)
    /\ JSONReader_Read record_without_order
       = Some (LIST [DICTIONARY [("apiVersion", STRING "v1");
                                 ("object_id", STRING "obj-abc")]])
    /\ GetParsedDataByLocalId Bookmark "123" true true false s1 = Crash
    /\ GetOrderByLocalObjectIdOnThread Bookmark "123" s1 = Crash
    /\ SaveSpecialJsonOnThread "b123" record_without_object_id (fresh false)
       = Done (true, s2)
    /\ JSONReader_Read record_without_object_id
       = Some (LIST [DICTIONARY [("order", STRING "1.1.1")]])
    /\ GetObjectIdByLocalIdOnThread Bookmark "123" s2 = Crash.
Proof.
  exists (open_state (fresh false)
            (<["" := "b123"]> (<["b123" := record_without_order]> ∅))).
  exists (open_state (fresh false)
            (<["" := "b123"]> (<["b123" := record_without_object_id]> ∅))).
  split; [reflexivity|].
  split; [vm_compute; reflexivity|].
  split; [vm_compute; reflexivity|].
  split; [vm_compute; reflexivity|].
  split; [reflexivity|].
  split; vm_compute; reflexivity.
Qed.

End RecordWithoutOrder.

(** ** Deleting *)

Section Delete.

(** [DeleteByLocalIdOnThread] on an open store, from what the record
    decodes to. *)
Lemma DeleteByLocalIdOnThread_open s m type local_id p :
  GetParsedDataByLocalId type local_id true false false (open_state s m)
    = Done (p, open_state s m) ->
  DeleteByLocalIdOnThread type local_id (open_state s m)
  = Done (true,
          open_state s
            (if parsed p && negb (String.eqb (object_id_out p) "")
             then delete (object_id_out p)
                    (delete (ComposeRawLocalId type local_id) m)
             else delete (ComposeRawLocalId type local_id) m)).
Proof.
  intros Hp. unfold DeleteByLocalIdOnThread.
  step (CreateOpenDatabase_open s m). cbn [negb].
  step Hp.
  unfold bind, level_db_Delete, open_state. cbn.
  destruct (parsed p && negb (String.eqb (object_id_out p) "")); reflexivity.
Qed.

Lemma GetObjectIdByLocalIdOnThread_absent s m type local_id :
  m !! ComposeRawLocalId type local_id = None ->
  GetObjectIdByLocalIdOnThread type local_id (open_state s m)
  = Done ("", open_state s m).
Proof.
  intros H. unfold GetObjectIdByLocalIdOnThread.
  now step (GetParsedDataByLocalId_absent s m type local_id true false false H).
Qed.


Lemma DeleteByLocalIdOnThread_available s type local_id :
  available s = true ->
  DeleteByLocalIdOnThread type local_id s
  = DeleteByLocalIdOnThread type local_id (open_state s (db s)).
Proof.
  intros Hav. unfold DeleteByLocalIdOnThread at 1.
  step (CreateOpenDatabase_available s Hav). cbn [negb].
  unfold DeleteByLocalIdOnThread.
  now step (CreateOpenDatabase_open s (db s)).
Qed.

(** On a store that cannot be opened the delete reports failure. *)
Lemma DeleteByLocalIdOnThread_broken :
  DeleteByLocalIdOnThread Bookmark "123" broken = Done (false, broken).
Proof. reflexivity. Qed.

(** C5: the code misses the claim after the three-argument save.
    [SaveObjectIdOnThread Bookmark "123" "obj-abc"] succeeds and puts
    both entries; the record it writes cannot be read back (the text
    lacks the opening quote of [apiVersion]), so
    [DeleteByLocalIdOnThread Bookmark "123"] finds no object id,
    removes the forward entry only and returns true; the reverse entry
    is still stored, and [GetLocalIdByObjectIdOnThread Bookmark
    "obj-abc"] returns ["123"] where the claim has the empty string. *)
Theorem delete_after_SaveObjectIdOnThread_keeps_reverse_entry :
  let s1 := open_state (fresh true)
              (<["obj-abc" := "b123"]>
                 (<["b123" := object_id_json "obj-abc" "v1"]> ∅)) in
  let s2 := open_state (fresh true)
              (delete "b123"
                 (<["obj-abc" := "b123"]>
                    (<["b123" := object_id_json "obj-abc" "v1"]> ∅))) in
  SaveObjectIdOnThread Bookmark "123" "obj-abc" (fresh true) = Done (true, s1)
  /\ DeleteByLocalIdOnThread Bookmark "123" s1 = Done (true, s2)
  /\ db s2 !! ComposeRawLocalId Bookmark "123" = None
  /\ db s2 !! "obj-abc" = Some (ComposeRawLocalId Bookmark "123")
  /\ GetObjectIdByLocalIdOnThread Bookmark "123" s2 = Done ("", s2)
  /\ GetLocalIdByObjectIdOnThread Bookmark "obj-abc" s2 = Done ("123", s2).
Proof. vm_compute. repeat split; reflexivity. Qed.

End Delete.

(** ** Updating the order *)

Section UpdateOrder.

Lemma GetRawJsonByLocalId_available s k :
  available s = true ->
  GetRawJsonByLocalId k s = Done (default "" (db s !! k), open_state s (db s)).
Proof.
  intros Hav. unfold GetRawJsonByLocalId.
  now step (CreateOpenDatabase_available s Hav).
Qed.

Lemma GetParsedDataByLocalId_available s type local_id wo wr wa :
  available s = true ->
  GetParsedDataByLocalId type local_id wo wr wa s
  = GetParsedDataByLocalId type local_id wo wr wa (open_state s (db s)).
Proof.
  intros Hav. unfold GetParsedDataByLocalId.
  step (GetRawJsonByLocalId_available s (ComposeRawLocalId type local_id) Hav).
  now step (GetRawJsonByLocalId_open s (db s) (ComposeRawLocalId type local_id)).
Qed.





End UpdateOrder.

(** ** The not-synced record set *)

Section NotSyncedSet.

#[local] Set Warnings "-clear-no-such-hyp".

Lemma list_to_set_in_order (X : gset string) : list_to_set (in_order X) = X.
Proof.
  unfold in_order. rewrite (merge_sort_Permutation String.le (elements X)).
  apply list_to_set_elements_L.
Qed.


Lemma insert_all_strings l : forall acc st,
  insert_all (map STRING l) acc st = Done (list_to_set l ∪ acc, st).
Proof.
  induction l as [|x l IH]; intros acc st.
  - cbn. unfold ret. f_equal. f_equal. set_solver.
  - cbn [map insert_all GetString]. unfold bind, ret. rewrite IH.
    f_equal. f_equal. set_solver.
Qed.

Lemma insert_all_frame vals : forall acc st X st',
  insert_all vals acc st = Done (X, st') ->
  st' = st /\ forall st2, insert_all vals acc st2 = Done (X, st2).
Proof.
  induction vals as [|v vals IH]; intros acc st X st' H.
  - cbn in H. injection H as <- <-. split; [reflexivity|]. intros st2. reflexivity.
  - destruct v; try discriminate H.
    cbn [insert_all GetString] in *. unfold bind, ret in *.
    apply IH in H as [-> H]. split; [reflexivity|]. intros st2. apply H.
Qed.

(** [DeserializeList] reads the state for the build flag only. *)
Lemma DeserializeList_frame raw st X st' :
  DeserializeList raw st = Done (X, st') ->
  st' = st
  /\ forall st2, dcheck_is_on st2 = dcheck_is_on st ->
                 DeserializeList raw st2 = Done (X, st2).
Proof.
  unfold DeserializeList. destruct (JSONReader_Read raw) as [v|].
  - unfold bind, DCHECK. destruct v; cbn [is_list negb];
      try (intros H; destruct (dcheck_is_on st && true); discriminate H).
    rewrite andb_false_r. intros H. apply insert_all_frame in H as [-> H].
    split; [reflexivity|]. intros st2 _. rewrite andb_false_r. apply H.
  - intros [= <- <-]. split; [reflexivity|]. intros st2 _. reflexivity.
Qed.

(** Reading the written set back gives the set. *)
Lemma DeserializeList_SerializeList X st :
  DeserializeList (SerializeList X) st = Done (X, st).
Proof.
  unfold DeserializeList, SerializeList. rewrite JSONReader_Read_strings.
  unfold bind, DCHECK. cbn [is_list negb]. rewrite andb_false_r.
  rewrite insert_all_strings, list_to_set_in_order.
  f_equal. f_equal. set_solver.
Qed.

Lemma DeserializeList_empty st : DeserializeList "" st = Done (∅, st).
Proof. reflexivity. Qed.

Lemma foldl_insert l : forall X : gset string,
  foldl (fun acc id => {[ id ]} ∪ acc) X l = X ∪ list_to_set l.
Proof.
  induction l as [|x l IH]; intros X; cbn.
  - set_solver.
  - rewrite IH. set_solver.
Qed.

Lemma record_type_known type st :
  type <> Unset ->
  record_type type st
  = Done (match type with
          | Bookmark => "BOOKMARKS"
          | History => "HISTORY_SITES"
          | Unset => ""
          end, st).
Proof. destruct type; [congruence|reflexivity..]. Qed.

Lemma not_synced_key_not_empty type action :
  type <> Unset -> not_synced_key type action <> "".
Proof. destruct type; [congruence|discriminate..]. Qed.


(** [GetNotSyncedRecords] when the store can be opened. *)
Lemma GetNotSyncedRecords_available s key :
  available s = true ->
  GetNotSyncedRecords key s
  = DeserializeList (default "" (db s !! key)) (open_state s (db s)).
Proof.
  intros Hav. unfold GetNotSyncedRecords.
  now step (GetRawJsonByLocalId_available s key Hav).
Qed.

Lemma GetRawJsonByLocalId_unavailable s key :
  available s = false -> GetRawJsonByLocalId key s = Done ("", s).
Proof.
  intros Hav. unfold GetRawJsonByLocalId.
  now step (CreateOpenDatabase_unavailable s Hav).
Qed.


(** The three operations, once the category is known. *)
Lemma SaveGetDelete_known type action local_ids operation st :
  type <> Unset ->
  SaveGetDeleteNotSyncedRecordsOnThread type action local_ids operation st
  = (existing_list <- GetNotSyncedRecords (not_synced_key type action) ;;
     match operation with
     | GetItems => ret existing_list
     | _ =>
         existing_list' <-
           match operation with
           | AddItems => ret (foldl (fun acc id => {[ id ]} ∪ acc) existing_list
                                (in_order local_ids))
           | _ => erase_all type (String.eqb action DELETE_RECORD)
                    (in_order local_ids) existing_list
           end ;;
         saved <- SaveNotSyncedRecords (not_synced_key type action) existing_list' ;;
         if saved then ret existing_list' else ret ∅
     end) st.
Proof.
  intros Hne. unfold SaveGetDeleteNotSyncedRecordsOnThread.
  step (record_type_known type st Hne).
  destruct type; [congruence|reflexivity..].
Qed.

(** The stored set read from a content whose set key holds a written set. *)
Lemma GetItems_written s m type action local_ids X :
  type <> Unset ->
  m !! not_synced_key type action = Some (SerializeList X) ->
  SaveGetDeleteNotSyncedRecordsOnThread type action local_ids GetItems
    (open_state s m)
  = Done (X, open_state s m).
Proof.
  intros Hne Hm. rewrite SaveGetDelete_known by assumption.
  unfold bind. rewrite GetNotSyncedRecords_available by reflexivity.
  cbn [db open_state]. rewrite Hm. cbn [default from_option id].
  now rewrite DeserializeList_SerializeList.
Qed.

(** C10: when the store can be opened, [SaveSpecialJson] and every
    persist of the not-synced set ([SaveNotSyncedRecords]) put the
    value under the intended key and then put that key under the
    empty-string key. *)
Theorem empty_key_second_put (s : ObjectMap) (local_id special_JSON key : string)
    (existing_list : gset string) :
  available s = true ->
  (exists s',
     SaveSpecialJsonOnThread local_id special_JSON s = Done (true, s')
     /\ db s' = <["" := local_id]> (<[local_id := special_JSON]> (db s))
     /\ db s' !! "" = Some local_id)
  /\ (exists s',
        SaveNotSyncedRecords key existing_list s = Done (true, s')
        /\ db s' = <["" := key]> (<[key := SerializeList existing_list]> (db s))
        /\ db s' !! "" = Some key).
Proof.
  intros Hav. unfold SaveSpecialJsonOnThread, SaveNotSyncedRecords.
  rewrite !SaveObjectIdRawJson_spec, Hav.
  split; eexists; (split; [reflexivity|]); (split; [reflexivity|]);
    apply lookup_insert_eq.
Qed.

Lemma empty_key_second_put_witness :
  (exists s',
     SaveSpecialJsonOnThread "device" "[1]" (fresh true) = Done (true, s')
     /\ db s' = <["" := "device"]> (<["device" := "[1]"]> (db (fresh true)))
     /\ db s' !! "" = Some "device")
  /\ (exists s',
        SaveNotSyncedRecords "BOOKMARKS1" {[ "123" ]} (fresh true) = Done (true, s')
        /\ db s' = <["" := "BOOKMARKS1"]>
                     (<["BOOKMARKS1" := SerializeList {[ "123" ]}]> (db (fresh true)))
        /\ db s' !! "" = Some "BOOKMARKS1").
Proof.
  apply (empty_key_second_put (fresh true) "device" "[1]" "BOOKMARKS1" {[ "123" ]}).
  reflexivity.
Defined.

(** A stored set is what [DeserializeList] returns, in every state. *)
Lemma stored_set_decodes m key X st :
  stored_set m key X ->
  DeserializeList (default "" (m !! key)) st = Done (X, st).
Proof.
  unfold stored_set, DeserializeList.
  destruct (JSONReader_Read (default "" (m !! key))) as [v|].
  - intros (l & -> & ->). unfold bind, DCHECK. cbn [is_list negb].
    rewrite andb_false_r, insert_all_strings. f_equal. f_equal. set_solver.
  - now intros ->.
Qed.

Lemma stored_set_written m key X :
  m !! key = Some (SerializeList X) -> stored_set m key X.
Proof.
  intros H. unfold stored_set. rewrite H.
  change (default "" (Some (SerializeList X))) with (SerializeList X).
  unfold SerializeList. rewrite JSONReader_Read_strings.
  exists (in_order X). split; [reflexivity|]. symmetry. apply list_to_set_in_order.
Qed.

Lemma stored_set_absent m key : m !! key = None -> stored_set m key ∅.
Proof. intros H. unfold stored_set. now rewrite H. Qed.

(** C8: for a category other than [Unset], on a store that can be
    opened (open or not yet) and whose value under the set key stands
    for the set [X], [GetItems] returns [X] and leaves the content as
    it was; [AddItems S] returns [X ∪ S] after putting the text of
    [X ∪ S] under the set key (and the set key under the empty key),
    so that a following [GetItems] returns [X ∪ S]; and when every id
    of [S] is already in [X], the set and its size stay the same. *)
Theorem not_synced_get_add (s : ObjectMap) (c : Type_) (a : string)
    (S X : gset string) :
  c <> Unset ->
  available s = true ->
  stored_set (db s) (not_synced_key c a) X ->
  (forall S0, exists s1,
     SaveGetDeleteNotSyncedRecordsOnThread c a S0 GetItems s = Done (X, s1)
     /\ db s1 = db s)
  /\ exists s2,
       SaveGetDeleteNotSyncedRecordsOnThread c a S AddItems s = Done (X ∪ S, s2)
       /\ db s2 = <["" := not_synced_key c a]>
                    (<[not_synced_key c a := SerializeList (X ∪ S)]> (db s))
       /\ db s2 !! not_synced_key c a = Some (SerializeList (X ∪ S))
       /\ (forall S', SaveGetDeleteNotSyncedRecordsOnThread c a S' GetItems s2
                      = Done (X ∪ S, s2))
       /\ (S ⊆ X -> X ∪ S = X /\ size (X ∪ S) = size X).
Proof.
  intros Hne Hav Hset.
  set (key := not_synced_key c a) in *.
  pose proof (stored_set_decodes _ _ _ (open_state s (db s)) Hset) as Hd.
  split.
  { intros S0. exists (open_state s (db s)).
    rewrite SaveGetDelete_known by assumption. fold key.
    unfold bind. rewrite GetNotSyncedRecords_available, Hd by assumption.
    split; reflexivity. }
  exists (open_state s (<["" := key]> (<[key := SerializeList (X ∪ S)]> (db s)))).
  assert (Hkey : <["" := key]> (<[key := SerializeList (X ∪ S)]> (db s)) !! key
                 = Some (SerializeList (X ∪ S))).
  { rewrite lookup_insert_ne; [apply lookup_insert_eq|].
    intros Heq. now apply (not_synced_key_not_empty c a Hne). }
  split; [|split; [reflexivity|split; [exact Hkey|split]]].
  - rewrite SaveGetDelete_known by assumption. fold key.
    unfold bind. rewrite GetNotSyncedRecords_available, Hd by assumption.
    unfold ret, SaveNotSyncedRecords. rewrite SaveObjectIdRawJson_spec.
    cbn [available level_db_ open_state orb db].
    rewrite foldl_insert, list_to_set_in_order. reflexivity.
  - intros S'. now apply GetItems_written.
  - intros Hsub. assert (HX : X ∪ S = X) by set_solver. now rewrite HX.
Qed.

Lemma not_synced_get_add_witness :
  let s := on_disk {[ "BOOKMARKS0" := SerializeList {[ "1" ]} ]} in
  (forall S0, exists s1,
     SaveGetDeleteNotSyncedRecordsOnThread Bookmark "0" S0 GetItems s
       = Done ({[ "1" ]}, s1)
     /\ db s1 = db s)
  /\ exists s2,
       SaveGetDeleteNotSyncedRecordsOnThread Bookmark "0" {[ "2" ]} AddItems s
         = Done ({[ "1" ]} ∪ {[ "2" ]}, s2)
       /\ db s2 = <["" := not_synced_key Bookmark "0"]>
                    (<[not_synced_key Bookmark "0"
                       := SerializeList ({[ "1" ]} ∪ {[ "2" ]})]> (db s))
       /\ db s2 !! not_synced_key Bookmark "0"
          = Some (SerializeList ({[ "1" ]} ∪ {[ "2" ]}))
       /\ (forall S', SaveGetDeleteNotSyncedRecordsOnThread Bookmark "0" S' GetItems s2
                      = Done ({[ "1" ]} ∪ {[ "2" ]}, s2))
       /\ ({[ "2" ]} ⊆ ({[ "1" ]} : gset string) ->
           ({[ "1" ]} ∪ {[ "2" ]} : gset string) = {[ "1" ]}
           /\ size ({[ "1" ]} ∪ {[ "2" ]} : gset string) = size ({[ "1" ]} : gset string)).
Proof.
  intros s.
  apply (not_synced_get_add s Bookmark "0" {[ "2" ]} {[ "1" ]}).
  - discriminate.
  - reflexivity.
  - apply stored_set_written. reflexivity.
Defined.

End NotSyncedSet.

(** ** Deleting not-synced items *)

Section DeleteItemsLoop.

#[local] Set Warnings "-clear-no-such-hyp".

Lemma reads_only_ret {A} (a : A) st : reads_only (ret a) st.
Proof. right. now exists a. Qed.

Lemma reads_only_crash {A} st : reads_only (@crash A) st.
Proof. now left. Qed.

Lemma reads_only_bind {A B} (m : M A) (k : A -> M B) st :
  reads_only m st -> (forall a, reads_only (k a) st) -> reads_only (bind m k) st.
Proof.
  intros [Hc|[a Ha]] Hk.
  - left. now apply bind_Crash.
  - unfold reads_only. rewrite (bind_Done _ _ _ _ _ Ha). apply Hk.
Qed.

Lemma reads_only_DCHECK cond st : reads_only (DCHECK cond) st.
Proof.
  unfold reads_only, DCHECK.
  destruct (dcheck_is_on st && negb cond); [now left|right; now exists tt].
Qed.

Lemma reads_only_FindKey_GetString v key st :
  reads_only (FindKey_GetString v key) st.
Proof.
  destruct v as [| | | |l|d]; try apply reads_only_crash.
  cbn. destruct (dict_find key d) as [[| | |str| |]|];
    try apply reads_only_crash. apply reads_only_ret.
Qed.

(** On an open store [GetParsedDataByLocalId] crashes or returns
    without touching the state. *)
Lemma GetParsedDataByLocalId_open_cases s m type local_id wo wr wa :
  reads_only (GetParsedDataByLocalId type local_id wo wr wa) (open_state s m).
Proof.
  unfold GetParsedDataByLocalId. apply reads_only_bind.
  { right. eexists. apply GetRawJsonByLocalId_open. }
  intros json. destruct (String.eqb json "").
  { right. eexists. reflexivity. }
  destruct (JSONReader_Read json) as [val|]; [|apply reads_only_ret].
  apply reads_only_bind; [apply reads_only_DCHECK|]. intros _.
  apply reads_only_bind; [apply reads_only_DCHECK|]. intros _.
  destruct val as [| | | |[|val_entry [|]]|]; try apply reads_only_ret.
  apply reads_only_bind.
  { destruct wo; [apply reads_only_FindKey_GetString|apply reads_only_ret]. }
  intros object_id. apply reads_only_bind.
  { destruct wr; [apply reads_only_FindKey_GetString|apply reads_only_ret]. }
  intros order. apply reads_only_bind.
  { destruct wa; [apply reads_only_FindKey_GetString|apply reads_only_ret]. }
  intros api_version. apply reads_only_ret.
Qed.




(** A composed [Bookmark] or [History] key is not JSON. *)
Lemma JSONReader_Read_composed type local_id :
  type <> Unset -> JSONReader_Read (ComposeRawLocalId type local_id) = None.
Proof. destruct type; [congruence|reflexivity..]. Qed.







(** The delete of a mapping removes its two entries. *)
Lemma DeleteByLocalIdOnThread_mapped s m type id O Ord V :
  mapped m type id O Ord V ->
  DeleteByLocalIdOnThread type id (open_state s m)
  = Done (true, open_state s (delete O (delete (ComposeRawLocalId type id) m))).
Proof.
  intros (HO & HOrd & HV & Hne & Hf & Hr).
  pose proof (JSONReader_Read_order_record _ _ _ HO HOrd HV) as Hread.
  destruct (dict_find_order_record O Ord V) as [Hd1 _].
  pose proof (GetParsedDataByLocalId_decoded s m type id _ _ O "" false
                Hf Hread Hd1 (fun H => False_ind _ (diff_false_true H))) as Hp.
  rewrite (DeleteByLocalIdOnThread_open s m type id _ Hp).
  cbn [parsed object_id_out andb].
  assert (HO' : String.eqb O "" = false) by now apply String.eqb_neq.
  now rewrite HO'.
Qed.

Lemma DeleteByLocalIdOnThread_absent s m type id :
  m !! ComposeRawLocalId type id = None ->
  DeleteByLocalIdOnThread type id (open_state s m) = Done (true, open_state s m).
Proof.
  intros Habs.
  rewrite (DeleteByLocalIdOnThread_open s m type id _
             (GetParsedDataByLocalId_absent s m type id true false false Habs)).
  cbn [parsed not_parsed andb]. now rewrite delete_id.
Qed.




End DeleteItemsLoop.

(** * Further properties *)

(** ** Keys *)

Section Keys.

(** X1: composing what [SplitRawLocalId] returns gives back the raw
    key, whatever the raw key is. *)
Theorem compose_split (raw_local_id : string) :
  ComposeRawLocalId (snd (SplitRawLocalId raw_local_id))
    (fst (SplitRawLocalId raw_local_id))
  = raw_local_id.
Proof.
  destruct raw_local_id as [|c r]; [reflexivity|].
  cbn [SplitRawLocalId].
  destruct (Ascii.eqb c "b") eqn:Hb.
  - apply Ascii.eqb_eq in Hb. now subst c.
  - destruct (Ascii.eqb c "h") eqn:Hh; [|reflexivity].
    apply Ascii.eqb_eq in Hh. now subst c.
Qed.

(** X2: two composed keys of categories that are both [Unset] or both
    not [Unset] are equal only when category and local id are equal:
    a bookmark and a history entry with the same local id never share
    a key. *)
Theorem compose_injective (c1 c2 : Type_) (l1 l2 : string) :
  (c1 = Unset <-> c2 = Unset) ->
  ComposeRawLocalId c1 l1 = ComposeRawLocalId c2 l2 ->
  c1 = c2 /\ l1 = l2.
Proof.
  intros Hu Heq.
  destruct c1, c2; cbn in Heq;
    try (injection Heq as ->; now split);
    try discriminate Heq;
    try (now split);
    exfalso.
  all: destruct Hu as [H1 H2]; first [discriminate (H1 eq_refl) | discriminate (H2 eq_refl)].
Qed.

Lemma compose_injective_witness :
  Bookmark = Bookmark /\ "7" = "7".
Proof.
  apply (compose_injective Bookmark Bookmark "7" "7"); [|reflexivity].
  split; discriminate.
Defined.

End Keys.

(** ** The set codec *)

Section SetCodec.

#[local] Set Warnings "-clear-no-such-hyp".

Lemma map_STRING_inj l1 l2 : map STRING l1 = map STRING l2 -> l1 = l2.
Proof.
  revert l2. induction l1 as [|x l1 IH]; intros [|y l2] H; try discriminate H.
  - reflexivity.
  - cbn in H. injection H as -> H. f_equal. now apply IH.
Qed.

Lemma insert_all_cases vals : forall acc st,
  (exists l, vals = map STRING l
             /\ insert_all vals acc st = Done (list_to_set l ∪ acc, st))
  \/ ((~ exists l, vals = map STRING l) /\ insert_all vals acc st = Crash).
Proof.
  induction vals as [|v vals IH]; intros acc st.
  - left. exists []. split; [reflexivity|]. apply (insert_all_strings []).
  - destruct v as [|b|lexeme|str|vl|d];
      try (right; split; [intros [[|y l] Hl]; cbn in Hl; discriminate Hl|reflexivity]).
    cbn [insert_all GetString]. unfold bind, ret.
    destruct (IH ({[str]} ∪ acc) st) as [(l & -> & Hl)|[Hn Hc]].
    + left. exists (str :: l). split; [reflexivity|]. rewrite Hl.
      f_equal. f_equal. set_solver.
    + right. split; [|exact Hc].
      intros [[|y l] Hl]; [discriminate Hl|].
      cbn in Hl. injection Hl as _ Hl. apply Hn. now exists l.
Qed.

(** X3: [DeserializeList] returns the empty set on a text that is
    not JSON, returns the set of the elements (repeated ones merged)
    on a JSON array of strings, and does not return on any other JSON
    value, in either build. *)
Theorem DeserializeList_outcome (raw : string) (st : ObjectMap) :
  match JSONReader_Read raw with
  | None => DeserializeList raw st = Done (∅, st)
  | Some v =>
      (exists l, v = LIST (map STRING l)
                 /\ DeserializeList raw st = Done (list_to_set l, st))
      \/ (~ string_array v /\ DeserializeList raw st = Crash)
  end.
Proof.
  unfold DeserializeList, string_array.
  destruct (JSONReader_Read raw) as [v|]; [|reflexivity].
  unfold bind, DCHECK.
  destruct v as [| | | |vals|];
    try (right; split;
         [intros [l Hl]; discriminate Hl
         |cbn [is_list negb]; now destruct (dcheck_is_on st && true)]).
  cbn [is_list negb]. rewrite andb_false_r.
  destruct (insert_all_cases vals ∅ st) as [(l & -> & Hl)|[Hn Hc]].
  - left. exists l. split; [reflexivity|]. rewrite Hl.
    f_equal. f_equal. set_solver.
  - right. split; [|exact Hc].
    intros [l Hl]. injection Hl as Hl. apply Hn. now exists l.
Qed.

(** X4: reading back the text that [SerializeList] writes gives the
    set, in every state; so two sets with the same text are equal. *)
Theorem SerializeList_roundtrip (X Y : gset string) (st : ObjectMap) :
  DeserializeList (SerializeList X) st = Done (X, st)
  /\ (SerializeList X = SerializeList Y -> X = Y).
Proof.
  split; [apply DeserializeList_SerializeList|].
  intros Heq.
  pose proof (DeserializeList_SerializeList X st) as HX.
  rewrite Heq, DeserializeList_SerializeList in HX.
  now injection HX as ->.
Qed.

End SetCodec.

(** ** Reads leave the content alone *)

Section ReadsKeepContent.

Lemma keeps_content_ret {A} (a : A) : keeps_content (ret a).
Proof. intros s a' s' [= <- <-]. now split. Qed.

Lemma keeps_content_crash {A} : keeps_content (@crash A).
Proof. intros s a s' H. discriminate H. Qed.

Lemma keeps_content_bind {A B} (m : M A) (k : A -> M B) :
  keeps_content m -> (forall a, keeps_content (k a)) -> keeps_content (bind m k).
Proof.
  intros Hm Hk s b s' H. unfold bind in H.
  destruct (m s) as [[a s1]|] eqn:Hms; [|discriminate H].
  apply Hm in Hms as [Hd Ha]. apply Hk in H as [Hd' Ha'].
  split; congruence.
Qed.

Lemma keeps_content_DCHECK cond : keeps_content (DCHECK cond).
Proof.
  intros s a s'. unfold DCHECK.
  destruct (dcheck_is_on s && negb cond); [discriminate|].
  intros [= <- <-]. now split.
Qed.

Lemma keeps_content_TraceAll : keeps_content TraceAll.
Proof.
  intros s a s'. unfold TraceAll.
  destruct (level_db_ s); [|discriminate]. intros [= <- <-]. now split.
Qed.

Lemma keeps_content_CreateOpenDatabase : keeps_content CreateOpenDatabase.
Proof.
  intros s a s'. unfold CreateOpenDatabase.
  destruct (level_db_ s); [intros [= <- <-]; now split|].
  destruct (openable s); intros [= <- <-]; now split.
Qed.

Lemma keeps_content_level_db_Get key : keeps_content (level_db_Get key).
Proof.
  intros s a s'. unfold level_db_Get.
  destruct (level_db_ s); [|discriminate]. intros [= <- <-]. now split.
Qed.

Lemma keeps_content_FindKey_GetString v key :
  keeps_content (FindKey_GetString v key).
Proof.
  destruct v as [|b|lexeme|str|vl|d]; try apply keeps_content_crash.
  cbn. destruct (dict_find key d) as [[|b|lexeme|str|vl|d']|];
    try apply keeps_content_crash. apply keeps_content_ret.
Qed.

Lemma keeps_content_GetRawJsonByLocalId key :
  keeps_content (GetRawJsonByLocalId key).
Proof.
  apply keeps_content_bind; [apply keeps_content_CreateOpenDatabase|].
  intros []; cbn [negb]; [|apply keeps_content_ret].
  apply keeps_content_bind; [apply keeps_content_level_db_Get|].
  intros r. apply keeps_content_ret.
Qed.

Lemma keeps_content_GetParsedDataByLocalId type local_id wo wr wa :
  keeps_content (GetParsedDataByLocalId type local_id wo wr wa).
Proof.
  apply keeps_content_bind; [apply keeps_content_GetRawJsonByLocalId|].
  intros json. destruct (String.eqb json "").
  { apply keeps_content_bind; [apply keeps_content_TraceAll|].
    intros _. apply keeps_content_ret. }
  destruct (JSONReader_Read json) as [val|]; [|apply keeps_content_ret].
  apply keeps_content_bind; [apply keeps_content_DCHECK|]. intros _.
  apply keeps_content_bind; [apply keeps_content_DCHECK|]. intros _.
  destruct val as [|b|lexeme|str|[|val_entry [|]]|d]; try apply keeps_content_ret.
  apply keeps_content_bind.
  { destruct wo; [apply keeps_content_FindKey_GetString|apply keeps_content_ret]. }
  intros object_id. apply keeps_content_bind.
  { destruct wr; [apply keeps_content_FindKey_GetString|apply keeps_content_ret]. }
  intros order. apply keeps_content_bind.
  { destruct wa; [apply keeps_content_FindKey_GetString|apply keeps_content_ret]. }
  intros api_version. apply keeps_content_ret.
Qed.

Lemma keeps_content_GetLocalIdByObjectIdOnThread type object_id :
  keeps_content (GetLocalIdByObjectIdOnThread type object_id).
Proof.
  apply keeps_content_bind; [apply keeps_content_CreateOpenDatabase|].
  intros []; cbn [negb]; [|apply keeps_content_ret].
  apply keeps_content_bind; [apply keeps_content_level_db_Get|].
  intros [value|]; [|apply keeps_content_ret].
  destruct (SplitRawLocalId value) as [local_id read_type].
  apply keeps_content_bind; [apply keeps_content_DCHECK|].
  intros _. apply keeps_content_ret.
Qed.

Lemma keeps_content_GetOrderByLocalObjectIdOnThread type local_id :
  keeps_content (GetOrderByLocalObjectIdOnThread type local_id).
Proof.
  apply keeps_content_bind; [apply keeps_content_GetParsedDataByLocalId|].
  intros p. apply keeps_content_ret.
Qed.

Lemma keeps_content_insert_all vals : forall acc,
  keeps_content (insert_all vals acc).
Proof.
  induction vals as [|v vals IH]; intros acc; [apply keeps_content_ret|].
  cbn [insert_all]. apply keeps_content_bind.
  - destruct v; try apply keeps_content_crash. apply keeps_content_ret.
  - intros str. apply IH.
Qed.

Lemma keeps_content_GetNotSyncedRecords key :
  keeps_content (GetNotSyncedRecords key).
Proof.
  apply keeps_content_bind; [apply keeps_content_GetRawJsonByLocalId|].
  intros raw. unfold DeserializeList.
  destruct (JSONReader_Read raw) as [v|]; [|apply keeps_content_ret].
  apply keeps_content_bind; [apply keeps_content_DCHECK|]. intros _.
  destruct v; try apply keeps_content_crash. apply keeps_content_insert_all.
Qed.

(** X5: the look-ups write nothing.  Whenever one of them returns,
    the stored content and the API version are what they were before
    the call, in every state: the raw read, the three mapping
    look-ups, the order look-ups by object id and over a list of
    local ids, and [GetItems] on the not-synced set. *)
Theorem lookups_keep_content :
  (forall key, keeps_content (GetRawJsonByLocalId key))
  /\ (forall type object_id,
        keeps_content (GetLocalIdByObjectIdOnThread type object_id))
  /\ (forall type local_id,
        keeps_content (GetObjectIdByLocalIdOnThread type local_id))
  /\ (forall type local_id,
        keeps_content (GetOrderByLocalObjectIdOnThread type local_id))
  /\ (forall type object_id,
        keeps_content (GetOrderByObjectIdOnThread type object_id))
  /\ (forall type local_ids,
        keeps_content (GetOrderByLocalObjectIdsOnThread type local_ids))
  /\ (forall type action local_ids,
        keeps_content
          (SaveGetDeleteNotSyncedRecordsOnThread type action local_ids GetItems)).
Proof.
  split; [apply keeps_content_GetRawJsonByLocalId|].
  split; [apply keeps_content_GetLocalIdByObjectIdOnThread|].
  split.
  { intros type local_id.
    apply keeps_content_bind; [apply keeps_content_GetParsedDataByLocalId|].
    intros p. apply keeps_content_ret. }
  split; [apply keeps_content_GetOrderByLocalObjectIdOnThread|].
  split.
  { intros type object_id.
    apply keeps_content_bind; [apply keeps_content_GetLocalIdByObjectIdOnThread|].
    intros local_id.
    apply keeps_content_bind; [apply keeps_content_GetParsedDataByLocalId|].
    intros p. apply keeps_content_bind; [apply keeps_content_DCHECK|].
    intros _. apply keeps_content_ret. }
  split.
  { intros type local_ids. induction local_ids as [|id ids IH];
      [apply keeps_content_ret|].
    cbn [GetOrderByLocalObjectIdsOnThread].
    apply keeps_content_bind; [apply keeps_content_GetOrderByLocalObjectIdOnThread|].
    intros order. apply keeps_content_bind; [exact IH|].
    intros orders. apply keeps_content_ret. }
  intros type action local_ids.
  apply keeps_content_bind.
  { destruct type; try apply keeps_content_ret.
    apply keeps_content_bind; [apply keeps_content_DCHECK|].
    intros _. apply keeps_content_ret. }
  intros recordType.
  apply keeps_content_bind; [apply keeps_content_GetNotSyncedRecords|].
  intros existing_list. apply keeps_content_ret.
Qed.

End ReadsKeepContent.

(** ** Special records, reset, and the life cycle of the handle *)

Section LifeCycle.

#[local] Set Warnings "-clear-no-such-hyp".

(** X6: on a store that can be opened, a special record saved under a
    non-empty local id is read back as it was saved, while one saved
    under the empty local id is overwritten by the second put and
    reads back empty; no key other than the local id and the empty
    key changes. *)
Theorem special_json_roundtrip (s : ObjectMap) (local_id special_JSON : string) :
  available s = true ->
  exists s',
    SaveSpecialJsonOnThread local_id special_JSON s = Done (true, s')
    /\ GetRawJsonByLocalId local_id s'
       = Done (if String.eqb local_id "" then "" else special_JSON, s')
    /\ forall k, k <> local_id -> k <> "" -> db s' !! k = db s !! k.
Proof.
  intros Hav. unfold SaveSpecialJsonOnThread.
  rewrite SaveObjectIdRawJson_spec, Hav.
  eexists. split; [reflexivity|]. split.
  - rewrite GetRawJsonByLocalId_open. f_equal. f_equal.
    destruct (String.eqb_spec local_id "") as [->|Hne].
    + now rewrite lookup_insert_eq.
    + rewrite lookup_insert_ne by congruence. now rewrite lookup_insert_eq.
  - intros k Hk1 Hk2. cbn [db open_state].
    now rewrite !lookup_insert_ne by congruence.
Qed.

Lemma special_json_roundtrip_witness :
  exists s',
    SaveSpecialJsonOnThread "devices" "[1, 2]" (fresh true) = Done (true, s')
    /\ GetRawJsonByLocalId "devices" s' = Done ("[1, 2]", s')
    /\ forall k, k <> "devices" -> k <> "" -> db s' !! k = db (fresh true) !! k.
Proof.
  apply (special_json_roundtrip (fresh true) "devices" "[1, 2]"). reflexivity.
Defined.

(** X7: on a store that can be opened, [ResetSync key] removes the
    key, so that a raw read of it returns empty, and changes no other
    key. *)
Theorem ResetSync_one_key (s : ObjectMap) (key : string) :
  available s = true ->
  exists s',
    ResetSync key s = Done (tt, s')
    /\ GetRawJsonByLocalId key s' = Done ("", s')
    /\ forall k, k <> key -> db s' !! k = db s !! k.
Proof.
  intros Hav. unfold ResetSync.
  step (CreateOpenDatabase_available s Hav). cbn [negb].
  exists (open_state s (delete key (db s))).
  split; [reflexivity|]. split.
  - rewrite GetRawJsonByLocalId_open. now rewrite lookup_delete_eq.
  - intros k Hk. cbn [db open_state]. now rewrite lookup_delete_ne.
Qed.

Lemma ResetSync_one_key_witness :
  let s := open_state (fresh true) (saved Bookmark "123" "obj-abc" "1.1.1") in
  exists s',
    ResetSync "b123" s = Done (tt, s')
    /\ GetRawJsonByLocalId "b123" s' = Done ("", s')
    /\ forall k, k <> "b123" -> db s' !! k = db s !! k.
Proof.
  intros s. apply (ResetSync_one_key s "b123"). reflexivity.
Defined.




Lemma GetParsedDataByLocalId_unavailable s type local_id wo wr wa :
  available s = false ->
  GetParsedDataByLocalId type local_id wo wr wa s = Crash.
Proof.
  intros Hav. unfold GetParsedDataByLocalId.
  step (GetRawJsonByLocalId_unavailable s (ComposeRawLocalId type local_id) Hav).
  cbn [String.eqb]. apply bind_Crash. unfold TraceAll.
  apply orb_false_elim in Hav as [-> _]. reflexivity.
Qed.

(** X9: on a store that cannot be opened the look-ups that decode a
    record do not return: after the failed read they trace the
    database through the null handle.  So do the order look-up by
    object id and the order update. *)
Theorem unavailable_store_decoding_crashes (s : ObjectMap) :
  available s = false ->
  (forall type local_id, GetObjectIdByLocalIdOnThread type local_id s = Crash)
  /\ (forall type local_id, GetOrderByLocalObjectIdOnThread type local_id s = Crash)
  /\ (forall type object_id, GetOrderByObjectIdOnThread type object_id s = Crash)
  /\ (forall type local_id new_order,
        UpdateOrderByLocalObjectIdOnThread type local_id new_order s = Crash).
Proof.
  intros Hav.
  assert (Hp : forall type local_id wo wr wa,
            GetParsedDataByLocalId type local_id wo wr wa s = Crash)
    by (intros; now apply GetParsedDataByLocalId_unavailable).
  split; [intros; apply bind_Crash, Hp|].
  split; [intros; apply bind_Crash, Hp|].
  split; [|intros; apply bind_Crash, Hp].
  intros type object_id. unfold GetOrderByObjectIdOnThread.
  assert (Hl : GetLocalIdByObjectIdOnThread type object_id s = Done ("", s)).
  { unfold GetLocalIdByObjectIdOnThread.
    now step (CreateOpenDatabase_unavailable s Hav). }
  step Hl. apply bind_Crash, Hp.
Qed.

Lemma unavailable_store_decoding_crashes_witness :
  GetObjectIdByLocalIdOnThread Bookmark "123" broken = Crash
  /\ UpdateOrderByLocalObjectIdOnThread Bookmark "123" "2.2.2" broken = Crash.
Proof.
  destruct (unavailable_store_decoding_crashes broken eq_refl)
    as (Hget & _ & _ & Hup).
  split; [apply Hget|apply Hup].
Defined.


(** X11: releasing the handle of a database that can be opened again
    cannot be observed: after [CloseDBHandle] the content is still on
    disk and every look-up and save behaves exactly as on the open
    store, reopening on demand. *)
Theorem CloseDBHandle_reopens (s : ObjectMap) :
  level_db_ s = true ->
  openable s = true ->
  exists s',
    CloseDBHandle s = Done (tt, s')
    /\ level_db_ s' = false
    /\ db s' = db s
    /\ (forall key, GetRawJsonByLocalId key s' = GetRawJsonByLocalId key s)
    /\ (forall type object_id,
          GetLocalIdByObjectIdOnThread type object_id s'
          = GetLocalIdByObjectIdOnThread type object_id s)
    /\ (forall type local_id,
          GetObjectIdByLocalIdOnThread type local_id s'
          = GetObjectIdByLocalIdOnThread type local_id s)
    /\ (forall type local_id,
          GetOrderByLocalObjectIdOnThread type local_id s'
          = GetOrderByLocalObjectIdOnThread type local_id s)
    /\ (forall type local_id object_id order,
          SaveObjectIdAndOrderOnThread type local_id object_id order s'
          = SaveObjectIdAndOrderOnThread type local_id object_id order s)
    /\ (forall type local_id,
          DeleteByLocalIdOnThread type local_id s'
          = DeleteByLocalIdOnThread type local_id s).
Proof.
  destruct s as [d o a h m]. cbn [level_db_ openable]. intros -> ->.
  exists (mkObjectMap d true a false m).
  split; [reflexivity|].
  do 6 (split; [intros; reflexivity|]).
  split; [|intros; reflexivity].
  intros. unfold SaveObjectIdAndOrderOnThread.
  now rewrite !SaveObjectIdAndOrderInternal_spec, !SaveObjectIdRawJson_spec.
Qed.

Lemma CloseDBHandle_reopens_witness :
  let s := open_state (fresh true) (saved Bookmark "123" "obj-abc" "1.1.1") in
  exists s',
    CloseDBHandle s = Done (tt, s')
    /\ level_db_ s' = false
    /\ GetObjectIdByLocalIdOnThread Bookmark "123" s'
       = GetObjectIdByLocalIdOnThread Bookmark "123" s.
Proof.
  intros s.
  destruct (CloseDBHandle_reopens s eq_refl eq_refl)
    as (s' & Hc & Hl & _ & _ & _ & Hget & _).
  exists s'. split; [exact Hc|]. split; [exact Hl|]. apply Hget.
Defined.

End LifeCycle.

(** ** Saves and what follows them *)

Section AfterSave.

#[local] Set Warnings "-clear-no-such-hyp".

Lemma open_state_id s : level_db_ s = true -> open_state s (db s) = s.
Proof. destruct s as [d o a h m]. cbn. now intros ->. Qed.












End AfterSave.

(** ** API version, unknown ids, independent records *)

Section Records.

#[local] Set Warnings "-clear-no-such-hyp".



(** X17: the order look-up by an object id that the open store does
    not know, when no record sits under the bare category prefix
    either, returns the empty string in a release build and in a
    DCHECK build only for the empty object id: for a non-empty one
    the check that the record carries the object id fails. *)
Theorem order_by_unknown_object_id (s : ObjectMap) (c : Type_) (O : string) :
  level_db_ s = true ->
  db s !! O = None ->
  db s !! ComposeRawLocalId c "" = None ->
  GetOrderByObjectIdOnThread c O s
  = if dcheck_is_on s && negb (String.eqb O "") then Crash else Done ("", s).
Proof.
  intros Hopen HO Hraw. rewrite <- (open_state_id s Hopen).
  unfold GetOrderByObjectIdOnThread.
  step (GetLocalIdByObjectIdOnThread_absent s (db s) c O HO).
  step (GetParsedDataByLocalId_absent s (db s) c "" true true false Hraw).
  unfold bind, DCHECK. cbn [object_id_out order_out not_parsed dcheck_is_on open_state].
  rewrite (String.eqb_sym "" O).
  now destruct (dcheck_is_on s && negb (String.eqb O "")).
Qed.

Lemma order_by_unknown_object_id_witness :
  GetOrderByObjectIdOnThread Bookmark "obj-zzz" (open_state (fresh true) ∅) = Crash
  /\ GetOrderByObjectIdOnThread Bookmark "obj-zzz" (open_state (fresh false) ∅)
     = Done ("", open_state (fresh false) ∅).
Proof.
  split.
  - apply (order_by_unknown_object_id (open_state (fresh true) ∅) Bookmark "obj-zzz");
      reflexivity.
  - apply (order_by_unknown_object_id (open_state (fresh false) ∅) Bookmark "obj-zzz");
      reflexivity.
Defined.





End Records.

(** ** Deletes, order lists and separate sets *)

Section DeletesAndLists.

#[local] Set Warnings "-clear-no-such-hyp".

(** A delete on a store that can be opened, from what the record
    decodes to. *)
Lemma DeleteByLocalIdOnThread_Done s type local_id ok s1 :
  available s = true ->
  DeleteByLocalIdOnThread type local_id s = Done (ok, s1) ->
  exists p,
    GetParsedDataByLocalId type local_id true false false (open_state s (db s))
      = Done (p, open_state s (db s))
    /\ ok = true
    /\ s1 = open_state s
              (if parsed p && negb (String.eqb (object_id_out p) "")
               then delete (object_id_out p)
                      (delete (ComposeRawLocalId type local_id) (db s))
               else delete (ComposeRawLocalId type local_id) (db s)).
Proof.
  intros Hav. rewrite (DeleteByLocalIdOnThread_available s type local_id Hav).
  destruct (GetParsedDataByLocalId_open_cases s (db s) type local_id true false false)
    as [Hc|[p Hp]].
  - unfold DeleteByLocalIdOnThread.
    step (CreateOpenDatabase_open s (db s)). cbn [negb].
    now rewrite (bind_Crash _ _ _ Hc).
  - rewrite (DeleteByLocalIdOnThread_open s (db s) type local_id p Hp).
    intros [= <- <-]. now exists p.
Qed.



(** X21: on a store that can be opened, a delete that returns has
    removed the composed key and the key named by the object id that
    the record decoded to, if that is not empty, and has changed no
    other key. *)
Theorem delete_touches_two_keys (s : ObjectMap) (c : Type_) (L : string)
    (ok : bool) (s1 : ObjectMap) :
  available s = true ->
  DeleteByLocalIdOnThread c L s = Done (ok, s1) ->
  exists O,
    returned (GetObjectIdByLocalIdOnThread c L s) = Some O
    /\ db s1 !! ComposeRawLocalId c L = None
    /\ (O <> "" -> db s1 !! O = None)
    /\ forall k, k <> ComposeRawLocalId c L -> k <> O -> db s1 !! k = db s !! k.
Proof.
  intros Hav Hdel.
  apply DeleteByLocalIdOnThread_Done in Hdel as (p & Hp & _ & ->); [|assumption].
  set (raw := ComposeRawLocalId c L) in *.
  exists (object_id_out p). split.
  { unfold GetObjectIdByLocalIdOnThread.
    rewrite (bind_Done _ _ _ _ _
               (eq_trans (GetParsedDataByLocalId_available s c L true false false Hav)
                  Hp)).
    reflexivity. }
  cbn [db open_state].
  assert (Hshape : parsed p = false -> object_id_out p = "").
  { intros Hnp. unfold GetParsedDataByLocalId in Hp.
    rewrite (bind_Done _ _ _ _ _ (GetRawJsonByLocalId_open s (db s) raw)) in Hp.
    cbv beta in Hp.
    destruct (String.eqb _ ""); [cbn in Hp; now injection Hp as <-|].
    destruct (JSONReader_Read _) as [val|]; [|now injection Hp as <-].
    unfold bind at 1 in Hp. destruct (DCHECK _ _) as [[[] st1]|]; [|discriminate Hp].
    unfold bind at 1 in Hp. destruct (DCHECK _ _) as [[[] st2]|]; [|discriminate Hp].
    destruct val as [|b|lexeme|str|[|val_entry [|]]|d];
      try (now injection Hp as <-).
    unfold bind at 1 in Hp.
    destruct (FindKey_GetString _ _ _) as [[x st3]|]; [|discriminate Hp].
    cbn in Hp. injection Hp as <-. discriminate Hnp. }
  destruct (parsed p) eqn:Hparsed; cbn [andb].
  - destruct (String.eqb_spec (object_id_out p) "") as [He|He]; cbn [negb].
    + split; [apply lookup_delete_eq|]. split; [congruence|].
      intros k Hk _. now rewrite lookup_delete_ne.
    + split; [rewrite lookup_delete_None; right; apply lookup_delete_eq|].
      split; [intros _; apply lookup_delete_eq|].
      intros k Hk1 Hk2. now rewrite !lookup_delete_ne by congruence.
  - split; [apply lookup_delete_eq|]. split.
    + intros Hne. now rewrite (Hshape eq_refl) in Hne.
    + intros k Hk _. now rewrite lookup_delete_ne.
Qed.

Lemma delete_touches_two_keys_witness :
  let s := open_state (fresh true)
             (<["obj-h" := "h7"]>
                (<["h7" := object_id_order_json "obj-h" "2" "v1"]>
                   (saved Bookmark "7" "obj-b" "1"))) in
  exists s1 O,
    DeleteByLocalIdOnThread Bookmark "7" s = Done (true, s1)
    /\ returned (GetObjectIdByLocalIdOnThread Bookmark "7" s) = Some O
    /\ db s1 !! "b7" = None
    /\ (O <> "" -> db s1 !! O = None)
    /\ db s1 !! "h7" = db s !! "h7".
Proof.
  intros s.
  set (s1 := open_state (fresh true)
               (delete "obj-b" (delete "b7" (db s)))).
  assert (H : DeleteByLocalIdOnThread Bookmark "7" s = Done (true, s1))
    by (vm_compute; reflexivity).
  destruct (delete_touches_two_keys s Bookmark "7" true s1 eq_refl H)
    as (O & HO & Hraw & Hobj & Hframe).
  exists s1, O. split; [exact H|]. split; [exact HO|]. split; [exact Hraw|].
  split; [exact Hobj|].
  apply Hframe; [discriminate|].
  vm_compute in HO. injection HO as <-. discriminate.
Defined.

Lemma reads_only_GetOrderByLocalObjectIdOnThread s m type local_id :
  reads_only (GetOrderByLocalObjectIdOnThread type local_id) (open_state s m).
Proof.
  apply reads_only_bind; [apply GetParsedDataByLocalId_open_cases|].
  intros p. apply reads_only_ret.
Qed.

(** X22: on an open store the order look-up over a list of local ids
    leaves the state as it was and returns, position by position,
    what the single look-ups return: it returns a list exactly when
    every single look-up returns. *)
Theorem orders_pointwise (s : ObjectMap) (c : Type_) (local_ids orders : list string) :
  level_db_ s = true ->
  (forall s', GetOrderByLocalObjectIdsOnThread c local_ids s = Done (orders, s') ->
              s' = s)
  /\ (GetOrderByLocalObjectIdsOnThread c local_ids s = Done (orders, s)
      <-> Forall2 (fun local_id order =>
                     GetOrderByLocalObjectIdOnThread c local_id s = Done (order, s))
            local_ids orders).
Proof.
  intros Hopen. rewrite <- (open_state_id s Hopen).
  set (st := open_state s (db s)).
  assert (Hstep : forall ids os s',
            GetOrderByLocalObjectIdsOnThread c ids st = Done (os, s') ->
            s' = st
            /\ Forall2 (fun local_id order =>
                          GetOrderByLocalObjectIdOnThread c local_id st
                          = Done (order, st)) ids os).
  { induction ids as [|id ids IH]; intros os s' H.
    - cbn in H. injection H as <- <-. split; [reflexivity|constructor].
    - cbn [GetOrderByLocalObjectIdsOnThread] in H. unfold bind at 1 in H.
      destruct (reads_only_GetOrderByLocalObjectIdOnThread s (db s) c id)
        as [Hc|[o Ho]]; fold st in Hc || fold st in Ho.
      + rewrite Hc in H. discriminate H.
      + rewrite Ho in H. unfold bind at 1 in H.
        pose proof (IH) as IH'.
        destruct (GetOrderByLocalObjectIdsOnThread c ids st) as [[os' s1]|];
          [|discriminate H].
        cbn in H. injection H as <- <-.
        destruct (IH' os' s1 eq_refl) as [-> Hall]. split; [reflexivity|].
        now constructor. }
  split.
  - intros s' H. now apply Hstep in H.
  - split.
    + intros H. now apply Hstep in H.
    + revert orders. induction local_ids as [|id ids IH]; intros orders Hall.
      * inversion Hall. reflexivity.
      * inversion Hall as [|? o ? os Ho Hrest]; subst.
        cbn [GetOrderByLocalObjectIdsOnThread].
        step Ho. step (IH os Hrest). reflexivity.
Qed.

Lemma orders_pointwise_witness :
  let s := open_state (fresh true) (saved Bookmark "123" "obj-abc" "1.1.1") in
  GetOrderByLocalObjectIdsOnThread Bookmark ["123"; "9"; "123"] s
  = Done (["1.1.1"; ""; "1.1.1"], s).
Proof.
  intros s.
  apply (orders_pointwise s Bookmark ["123"; "9"; "123"] ["1.1.1"; ""; "1.1.1"] eq_refl).
  repeat constructor.
Defined.

Lemma not_synced_key_inj type action type' action' :
  type <> Unset -> type' <> Unset ->
  not_synced_key type action = not_synced_key type' action' ->
  type = type' /\ action = action'.
Proof.
  intros H1 H2 Heq.
  destruct type, type'; try congruence; try discriminate Heq;
    (split; [reflexivity|]; eapply String.app_inj, Heq).
Qed.

Lemma stored_set_same_value (m m' : gmap string string) key X :
  m' !! key = m !! key -> stored_set m key X -> stored_set m' key X.
Proof. unfold stored_set. now intros ->. Qed.

(** X23: the not-synced sets of different (category, action) pairs
    are stored apart.  On a store that can be opened, [AddItems] to
    the set of one pair returns, changes no key other than its own
    set key and the empty key, and [GetItems] of any other pair
    returns after it the set that was stored for that pair. *)
Theorem not_synced_sets_independent (s : ObjectMap) (c c' : Type_)
    (a a' : string) (S X Y : gset string) :
  c <> Unset ->
  c' <> Unset ->
  (c, a) <> (c', a') ->
  available s = true ->
  stored_set (db s) (not_synced_key c a) X ->
  stored_set (db s) (not_synced_key c' a') Y ->
  exists s',
    SaveGetDeleteNotSyncedRecordsOnThread c a S AddItems s = Done (X ∪ S, s')
    /\ (forall k, k <> not_synced_key c a -> k <> "" -> db s' !! k = db s !! k)
    /\ (forall S0, SaveGetDeleteNotSyncedRecordsOnThread c' a' S0 GetItems s'
                   = Done (Y, s')).
Proof.
  intros Hc Hc' Hpair Hav HX HY.
  assert (Hkeys : not_synced_key c' a' <> not_synced_key c a).
  { intros Heq. apply not_synced_key_inj in Heq as [-> ->]; [|assumption..].
    now apply Hpair. }
  assert (Hk0 : not_synced_key c' a' <> "") by now apply not_synced_key_not_empty.
  set (m' := <["" := not_synced_key c a]>
               (<[not_synced_key c a := SerializeList (X ∪ S)]> (db s))).
  assert (Hframe : forall k, k <> not_synced_key c a -> k <> "" ->
                             m' !! k = db s !! k).
  { intros k Hk1 Hk2. unfold m'. now rewrite !lookup_insert_ne by congruence. }
  exists (open_state s m'). split; [|split; [exact Hframe|]].
  - rewrite SaveGetDelete_known by assumption.
    unfold bind. rewrite GetNotSyncedRecords_available by assumption.
    rewrite (stored_set_decodes _ _ _ _ HX).
    unfold ret, SaveNotSyncedRecords. rewrite SaveObjectIdRawJson_spec.
    cbn [available level_db_ open_state orb db].
    rewrite foldl_insert, list_to_set_in_order. reflexivity.
  - intros S0. rewrite SaveGetDelete_known by assumption.
    unfold bind. rewrite GetNotSyncedRecords_available by reflexivity.
    change (db (open_state s m')) with m'.
    change (open_state (open_state s m') m') with (open_state s m').
    rewrite (stored_set_decodes m' _ Y); [reflexivity|].
    apply (stored_set_same_value (db s)); [|assumption].
    now apply Hframe.
Qed.

Lemma not_synced_sets_independent_witness :
  let s := on_disk {[ "BOOKMARKS0" := SerializeList {[ "1" ]} ]} in
  exists s',
    SaveGetDeleteNotSyncedRecordsOnThread Bookmark "1" {[ "2" ]} AddItems s
      = Done (∅ ∪ {[ "2" ]}, s')
    /\ (forall k, k <> not_synced_key Bookmark "1" -> k <> "" ->
                  db s' !! k = db s !! k)
    /\ (forall S0, SaveGetDeleteNotSyncedRecordsOnThread Bookmark "0" S0 GetItems s'
                   = Done ({[ "1" ]}, s')).
Proof.
  intros s.
  apply (not_synced_sets_independent s Bookmark Bookmark "1" "0" {[ "2" ]} ∅ {[ "1" ]}).
  - discriminate.
  - discriminate.
  - intros H. discriminate H.
  - reflexivity.
  - apply stored_set_absent. reflexivity.
  - apply stored_set_written. reflexivity.
Defined.

End DeletesAndLists.

Section MoreCompositions.

#[local] Set Warnings "-clear-no-such-hyp".




End MoreCompositions.

(** ** Deleting a saved mapping *)

Section DeleteAfterSave.

(** X26: after a successful [SaveObjectIdAndOrderOnThread c L O Ord]
    with a non-empty object id, object id, order and API version free
    of quote, backslash and control bytes, [DeleteByLocalIdOnThread c
    L] returns true and removes the forward and the reverse entry, so
    both look-ups return the empty string, and every other key holds
    what it held before the save.  For [Unset] the object id has to
    differ from the local id; for [Bookmark] and [History] it may even
    be the composed key. *)
Theorem delete_after_save (s : ObjectMap) (c : Type_) (L O Ord : string)
    (s1 : ObjectMap) :
  plain_string O = true ->
  plain_string Ord = true ->
  plain_string (api_version_ s) = true ->
  O <> "" ->
  (c = Unset -> O <> ComposeRawLocalId c L) ->
  SaveObjectIdAndOrderOnThread c L O Ord s = Done (true, s1) ->
  exists s2,
    DeleteByLocalIdOnThread c L s1 = Done (true, s2)
    /\ db s2 !! ComposeRawLocalId c L = None
    /\ db s2 !! O = None
    /\ GetObjectIdByLocalIdOnThread c L s2 = Done ("", s2)
    /\ GetLocalIdByObjectIdOnThread c O s2 = Done ("", s2)
    /\ forall k, k <> ComposeRawLocalId c L -> k <> O -> db s2 !! k = db s !! k.
Proof.
  intros HO HOrd HV Hne0 Hne Hsave.
  apply SaveObjectIdAndOrderOnThread_true in Hsave. subst s1.
  set (raw := ComposeRawLocalId c L) in *.
  set (m1 := <[O := raw]> (<[raw := object_id_order_json O Ord (api_version_ s)]> (db s))).
  destruct (decide (O = raw)) as [Heq|Hdiff].
  - (* the reverse entry has overwritten the record *)
    assert (Hc : c <> Unset) by (intros Hc; now apply Hne).
    assert (Hfwd : m1 !! raw = Some raw).
    { subst m1. rewrite Heq. apply lookup_insert_eq. }
    pose proof (GetParsedDataByLocalId_unreadable s m1 c L true false false raw
                  Hfwd (JSONReader_Read_composed c L Hc)) as Hp.
    rewrite (DeleteByLocalIdOnThread_open s m1 c L _ Hp).
    cbn [parsed not_parsed andb]. fold raw.
    assert (Hraw : delete raw m1 !! raw = None) by apply lookup_delete_eq.
    exists (open_state s (delete raw m1)).
    split; [reflexivity|]. split; [exact Hraw|].
    split; [now rewrite Heq|]. split; [|split].
    + exact (GetObjectIdByLocalIdOnThread_absent s _ c L Hraw).
    + apply GetLocalIdByObjectIdOnThread_absent. now rewrite Heq.
    + intros k Hk1 Hk2. cbn [db open_state]. subst m1.
      now rewrite lookup_delete_ne, !lookup_insert_ne by congruence.
  - assert (Hfwd : m1 !! raw = Some (object_id_order_json O Ord (api_version_ s))).
    { subst m1. rewrite lookup_insert_ne by assumption. apply lookup_insert_eq. }
    assert (Hmap : mapped m1 c L O Ord (api_version_ s)).
    { repeat split; try assumption. subst m1. apply lookup_insert_eq. }
    rewrite (DeleteByLocalIdOnThread_mapped s m1 c L O Ord _ Hmap). fold raw.
    assert (Hraw : delete O (delete raw m1) !! raw = None).
    { rewrite lookup_delete_ne by assumption. apply lookup_delete_eq. }
    assert (Hobj : delete O (delete raw m1) !! O = None) by apply lookup_delete_eq.
    exists (open_state s (delete O (delete raw m1))).
    split; [reflexivity|]. split; [exact Hraw|]. split; [exact Hobj|].
    split; [|split].
    + exact (GetObjectIdByLocalIdOnThread_absent s _ c L Hraw).
    + now apply GetLocalIdByObjectIdOnThread_absent.
    + intros k Hk1 Hk2. cbn [db open_state]. subst m1.
      now rewrite !lookup_delete_ne, !lookup_insert_ne by congruence.
Qed.

Lemma delete_after_save_witness :
  let s1 := open_state (fresh true) (saved Bookmark "123" "b123" "1.1.1") in
  exists s2,
    DeleteByLocalIdOnThread Bookmark "123" s1 = Done (true, s2)
    /\ db s2 !! ComposeRawLocalId Bookmark "123" = None
    /\ db s2 !! "b123" = None
    /\ GetObjectIdByLocalIdOnThread Bookmark "123" s2 = Done ("", s2)
    /\ GetLocalIdByObjectIdOnThread Bookmark "b123" s2 = Done ("", s2)
    /\ forall k, k <> ComposeRawLocalId Bookmark "123" -> k <> "b123" ->
                 db s2 !! k = db (fresh true) !! k.
Proof.
  intros s1.
  apply (delete_after_save (fresh true) Bookmark "123" "b123" "1.1.1" s1);
    try reflexivity; discriminate.
Defined.

(** X27: on a store that can be opened and holds nothing under the
    composed key, [DeleteByLocalIdOnThread] returns true and leaves
    the content as it was; on a store that cannot be opened it returns
    false. *)
Theorem delete_without_record (s : ObjectMap) (c : Type_) (L : string) :
  db s !! ComposeRawLocalId c L = None ->
  exists s2,
    DeleteByLocalIdOnThread c L s = Done (available s, s2)
    /\ db s2 = db s
    /\ level_db_ s2 = available s.
Proof.
  intros Habs. destruct (available s) eqn:Hav.
  - rewrite (DeleteByLocalIdOnThread_available s c L Hav).
    rewrite (DeleteByLocalIdOnThread_absent s (db s) c L Habs).
    exists (open_state s (db s)). repeat split.
  - unfold DeleteByLocalIdOnThread.
    step (CreateOpenDatabase_unavailable s Hav). cbn [negb].
    exists s. split; [reflexivity|]. split; [reflexivity|].
    destruct s as [d o a [] m]; [discriminate Hav|reflexivity].
Qed.

Lemma delete_without_record_witness :
  exists s2,
    DeleteByLocalIdOnThread Bookmark "123" (fresh true) = Done (true, s2)
    /\ db s2 = db (fresh true)
    /\ level_db_ s2 = true.
Proof.
  apply (delete_without_record (fresh true) Bookmark "123"). reflexivity.
Defined.

End DeleteAfterSave.
